(** * ProcessWatchdog: a shallow embedding of [process_monitor.py]

    The watchdog is a polling loop around operating-system calls (psutil,
    subprocess, requests, time).  The embedding keeps the Python control flow
    and makes every external call explicit: a program is a tree of calls
    ([prog]), an environment answers the calls, and running a program in an
    environment yields its result, the final world and the trace of the calls
    that were made, each stamped with the world clock.

    Python floats (memory in MB, cpu percent, [time.time()]) are modelled by
    rationals: the code only compares them and computes one difference.
    A logging call is recorded with its level and format string
    ([logging.exception] logs at level ERROR); its arguments are left out.
    [exn] stands for instances of Python's [Exception]; [KeyboardInterrupt]
    and the like are external termination and are not modelled. *)

From Stdlib Require Import String List ZArith QArith Bool Lia Lqa.
Import ListNotations.
Open Scope string_scope.

(** ** Python values *)

Module Py.

(** Truthiness of [str | None]: [None] and the empty string are falsy.
    [as_truthy] returns the string exactly when it is truthy. *)
Definition as_truthy (o : option string) : option string :=
  match o with
  | Some s => if String.eqb s "" then None else Some s
  | None => None
  end.

(** [x < y] on rationals, as a boolean. *)
Definition Qltb (x y : Q) : bool :=
  (Qnum x * QDen y <? Qnum y * QDen x)%Z.

(** Truthiness of [float | None]: [None] and zero are falsy. *)
Definition truthy_num (o : option Q) : bool :=
  match o with
  | Some q => negb (Qeq_bool q 0)
  | None => false
  end.

(** Python's [needle in hay] on strings. *)
Fixpoint str_contains (needle hay : string) : bool :=
  String.prefix needle hay ||
  match hay with
  | EmptyString => false
  | String _ rest => str_contains needle rest
  end.

(** [' '.join(parts)] *)
Definition join_space (parts : list string) : string :=
  String.concat " " parts.

(** Instances of [Exception], each with the text that [str(e)] gives.
    [psutil.ZombieProcess] is a subclass of [NoSuchProcess] and is folded into
    it; everything that is not a psutil class named in the source
    ([CalledProcessError], [FileNotFoundError], [ValueError], [TypeError],
    ...) is [OtherException]. *)
Inductive exn : Type :=
| NoSuchProcess (detail : string)
| AccessDenied (detail : string)
| TimeoutExpired (detail : string)
| OtherException (detail : string).

Definition str (e : exn) : string :=
  match e with
  | NoSuchProcess d | AccessDenied d | TimeoutExpired d | OtherException d => d
  end.

(** [except (psutil.NoSuchProcess, psutil.AccessDenied)] *)
Definition is_gone (e : exn) : bool :=
  match e with
  | NoSuchProcess _ | AccessDenied _ => true
  | _ => false
  end.

(** [except psutil.TimeoutExpired] *)
Definition is_timeout (e : exn) : bool :=
  match e with
  | TimeoutExpired _ => true
  | _ => false
  end.

End Py.
Import Py.

(** ** Data model *)

(** The [argparse] namespace (lines 130-140).  Options without [type=] are
    strings or [None]; [--max-mem-mb] and [--max-cpu] are floats; [--interval]
    and [--cooldown] are ints. *)
Record Args : Type := mkArgs {
  name : option string;
  pid : option string;
  max_mem_mb : option Q;
  max_cpu : option Q;
  interval : Z;
  service : option string;
  start_cmd : option string;
  webhook : option string;
  cooldown : Z
}.

(** A [psutil.Process] handle; [p.pid] is an attribute and never raises. *)
Record proc : Type := mkProc { proc_pid : Z }.

(** One item of [psutil.process_iter(['pid', 'name', 'cmdline'])]: the handle
    and what reading [p.info] gives.  A field psutil could not read is [None];
    the read itself may raise, which is what the [try] of lines 27-31 guards. *)
Record proc_info : Type := mkInfo {
  info_name : option string;
  info_cmdline : option (list string)
}.

Record proc_entry : Type := mkEntry {
  handle : proc;
  info : exn + proc_info
}.

(** The f-strings handed to [notify_webhook], kept unrendered. *)
Inductive message : Type :=
| MsgStarted (target : option string) (now : string)
| MsgRestarted (target : option string) (p : Z) (now : string) (mem_mb cpu : Q).

Inductive level : Type := LvlDebug | LvlInfo | LvlWarning | LvlError.

(** ** External calls *)

(** Every call the program makes outside itself, indexed by what it returns.
    A call that can raise returns [exn + R]. *)
Inductive call : Type -> Type :=
| time_time : call Q
| time_sleep (secs : Z) : call (exn + unit)
| datetime_now : call string
| logging_log (lvl : level) (fmt : string) : call unit
| process_iter : call (list proc_entry)
| psutil_Process (pid_arg : string) : call (exn + proc)
| memory_info_rss (p : proc) : call (exn + Z)
| cpu_percent (p : proc) (window : Q) : call (exn + Q)
| proc_name (p : proc) : call (exn + string)
| proc_terminate (p : proc) : call (exn + unit)
| proc_wait (p : proc) (timeout : Z) : call (exn + unit)
| proc_kill (p : proc) : call (exn + unit)
| run_systemctl_restart (unit_name : string) : call (exn + unit)
| run_shell (cmd : string) : call (exn + unit)
| popen_shell (cmd : string) : call (exn + unit)
| requests_post (url : string) (text : message) (timeout : Z) : call (exn + unit)
| parse_args : call ((Z * string) + Args).

(** ** Programs *)

Inductive prog (A : Type) : Type :=
| Ret (a : A)
| Vis {R : Type} (c : call R) (k : R -> prog A).

Arguments Ret {A} a.
Arguments Vis {A R} c k.

Fixpoint bind {A B : Type} (m : prog A) (f : A -> prog B) : prog B :=
  match m with
  | Ret a => f a
  | Vis c k => Vis c (fun r => bind (k r) f)
  end.

(** A computation that may raise. *)
Definition M (A : Type) : Type := prog (exn + A).

Definition ret {A : Type} (a : A) : M A := Ret (inr a).

(** Sequencing: an exception skips the rest. *)
Definition bindM {A B : Type} (m : M A) (f : A -> M B) : M B :=
  bind m (fun r => match r with
                   | inl e => Ret (inl e)
                   | inr a => f a
                   end).

(** A call that cannot raise, and one that can. *)
Definition perform {R : Type} (c : call R) : M R := Vis c (fun r => Ret (inr r)).
Definition attempt {R : Type} (c : call (exn + R)) : M R := Vis c (fun r => Ret r).

(** [try: body / except <classes> as e: handler e]; [catches] says which
    exceptions the clause matches, the others propagate. *)
Definition try_except {A : Type} (body : M A) (catches : exn -> bool)
    (handler : exn -> M A) : M A :=
  bind body (fun r => match r with
                      | inl e => if catches e then handler e else Ret (inl e)
                      | inr a => Ret (inr a)
                      end).

(** [except Exception] *)
Definition any_exception (e : exn) : bool := true.

Declare Scope prog_scope.
Delimit Scope prog_scope with prog.
Notation "x <- m ;; k" := (bindM m (fun x => k))
  (at level 61, m at next level, right associativity) : prog_scope.
Notation "' p <- m ;; k" := (bindM m (fun x => let p := x in k))
  (at level 61, p pattern, m at next level, right associativity) : prog_scope.
Notation "m ;;; k" := (bindM m (fun _ => k))
  (at level 61, right associativity) : prog_scope.
Open Scope prog_scope.

(** ** Environments and traces *)

(** The world answers calls and has a clock that stamps them. *)
Record env (W : Type) : Type := mkEnv {
  clock : W -> Q;
  respond : forall R : Type, call R -> W -> R * W
}.

Arguments clock {W} e w.
Arguments respond {W} e {R} c w.

Inductive event : Type :=
| Ev (at_time : Q) {R : Type} (c : call R) (r : R).

Fixpoint run {W A : Type} (E : env W) (m : prog A) (w : W)
    : A * W * list event :=
  match m with
  | Ret a => (a, w, [])
  | Vis c k =>
      let '(r, w1) := respond E c w in
      let '(a, w2, tr) := run E (k r) w1 in
      (a, w2, Ev (clock E w) c r :: tr)
  end.

Definition result_of {W A : Type} (E : env W) (m : prog A) (w : W) : A :=
  fst (fst (run E m w)).
Definition world_after {W A : Type} (E : env W) (m : prog A) (w : W) : W :=
  snd (fst (run E m w)).
Definition trace_of {W A : Type} (E : env W) (m : prog A) (w : W) : list event :=
  snd (run E m w).

(** ** The program *)

Module Watchdog.

(** Lines 24-32.  Evaluating the condition of line 28 on one entry: reading
    [p.info] may raise; [name in ...] raises [TypeError] when [name] is
    [None]; an empty or missing command line is falsy and ends the [and]. *)
Definition entry_matches (target : option string) (p : proc_entry) : exn + bool :=
  match info p with
  | inl e => inl e
  | inr i =>
      if match info_name i, target with
         | Some n, Some t => String.eqb n t
         | None, None => true
         | _, _ => false
         end
      then inr true
      else match info_cmdline i with
           | None | Some [] => inr false
           | Some cmdline =>
               match target with
               | Some t => inr (str_contains t (join_space cmdline))
               | None =>
                   inl (OtherException
                          "'in <string>' requires string as left operand, not NoneType")
               end
           end
  end.

(** The [for] loop of lines 26-31 over the enumerated processes. *)
Fixpoint scan (target : option string) (entries : list proc_entry) : exn + list proc :=
  match entries with
  | [] => inr []
  | p :: rest =>
      match entry_matches target p with
      | inr true =>
          match scan target rest with
          | inr procs => inr (handle p :: procs)
          | inl e => inl e
          end
      | inr false => scan target rest
      | inl e => if is_gone e then scan target rest else inl e
      end
  end.

Definition find_processes_by_name (target : option string) : M (list proc) :=
  Vis process_iter (fun entries => Ret (scan target entries)).

Section Module_globals.

(** [requests] is [None] when the import of lines 13-16 failed. *)
Variable requests_installed : bool.

(** The module's [__name__]. *)
Variable dunder_name : string.

(** Lines 34-43. *)
Definition notify_webhook (webhook_url : option string) (text : message) : M unit :=
  match as_truthy webhook_url with
  | None => ret tt
  | Some url =>
      if negb requests_installed
      then perform (logging_log LvlWarning "requests not installed — пропускаем уведомление")
      else try_except (attempt (requests_post url text 5)) any_exception
             (fun e => perform (logging_log LvlError "Не удалось отправить webhook: %s"))
  end.

(** Lines 45-50. *)
Definition restart_via_systemctl (service_name : string) : M (bool * string) :=
  try_except
    (attempt (run_systemctl_restart service_name) ;;;
     ret (true, "systemctl restart выполнен"))
    any_exception
    (fun e => ret (false, "systemctl restart failed: " ++ str e)).

(** Lines 52-57. *)
Definition restart_via_command (cmd : string) : M (bool * string) :=
  try_except
    (attempt (run_shell cmd) ;;;
     ret (true, "Команда рестарта `" ++ cmd ++ "` выполнена"))
    any_exception
    (fun e => ret (false, "Команда рестарта `" ++ cmd ++ "` не удалась: " ++ str e)).

(** Lines 59-74.  The arguments of the first [logging.info] are evaluated
    before it is called, so [proc.name()] comes first. *)
Definition kill_and_start (p : proc) (start : option string) : M (bool * string) :=
  try_except
    (attempt (proc_name p) ;;;
     perform (logging_log LvlInfo "Завершаем PID %s (%s)") ;;;
     attempt (proc_terminate p) ;;;
     try_except (attempt (proc_wait p 10)) is_timeout
       (fun _ =>
          perform (logging_log LvlWarning "Процесс не завершился — принудительно убиваем") ;;;
          attempt (proc_kill p)) ;;;
     match as_truthy start with
     | Some cmd =>
         perform (logging_log LvlInfo "Запускаем: %s") ;;;
         attempt (popen_shell cmd)
     | None => ret tt
     end ;;;
     ret (true, "kill+start выполнены"))
    any_exception
    (fun e =>
       perform (logging_log LvlError "Ошибка при kill/start: %s") ;;;
       ret (false, str e)).

(** The cooldown test written four times in [main] (lines 93, 110, 114, 118):
    [not last_action or (time.time() - last_action) > args.cooldown].
    [time.time()] is read only when [last_action] is truthy. *)
Definition cooldown_open (args : Args) (last_action : option Q) : M bool :=
  if negb (truthy_num last_action) then ret true
  else
    now <- perform time_time ;;
    ret (Qltb (inject_Z (cooldown args))
              (now - match last_action with Some t => t | None => 0 end)).

(** The condition of line 106. *)
Definition trips (args : Args) (mem_mb cpu : Q) : bool :=
  (truthy_num (max_mem_mb args) &&
   match max_mem_mb args with Some m => Qltb m mem_mb | None => false end)
  ||
  (truthy_num (max_cpu args) &&
   match max_cpu args with Some c => Qltb c cpu | None => false end).

(** Lines 107-123: the body of the [if] of line 106. *)
Definition handle_trip (args : Args) (p : proc) (mem_mb cpu : Q)
    (last_action : option Q) : M (option Q) :=
  perform (logging_log LvlWarning "Триггер для PID %s: mem=%.1fMB cpu=%.1f%%") ;;;
  let action_taken := false in
  action_taken <-
    match as_truthy (service args) with
    | Some svc =>
        open <- cooldown_open args last_action ;;
        if open then
          ' (ok, msg) <- restart_via_systemctl svc ;;
          perform (logging_log LvlInfo "systemctl restart: %s, %s") ;;;
          ret ok
        else ret action_taken
    | None => ret action_taken
    end ;;
  action_taken <-
    (if negb action_taken then
       match as_truthy (start_cmd args) with
       | Some cmd =>
           open <- cooldown_open args last_action ;;
           if open then
             ' (ok, msg) <- restart_via_command cmd ;;
             perform (logging_log LvlInfo "start_cmd: %s, %s") ;;;
             ret ok
           else ret action_taken
       | None => ret action_taken
       end
     else ret action_taken) ;;
  action_taken <-
    (if negb action_taken then
       open <- cooldown_open args last_action ;;
       if open then
         ' (ok, msg) <- kill_and_start p (start_cmd args) ;;
         perform (logging_log LvlInfo "kill/start: %s, %s") ;;;
         ret ok
       else ret action_taken
     else ret action_taken) ;;
  now <- perform datetime_now ;;
  notify_webhook (webhook args)
    (MsgRestarted (name args) (proc_pid p) now mem_mb cpu) ;;;
  t <- perform time_time ;;
  ret (Some t).

(** Lines 102-125: the body of the [for] loop with its [try]. *)
Definition check_proc (args : Args) (p : proc) (last_action : option Q)
    : M (option Q) :=
  try_except
    (rss <- attempt (memory_info_rss p) ;;
     let mem_mb := inject_Z rss / inject_Z (1024 ^ 2) in
     cpu <- attempt (cpu_percent p (1 # 10)) ;;
     perform (logging_log LvlDebug "PID %s mem=%.1fMB cpu=%.1f%%") ;;;
     if trips args mem_mb cpu
     then handle_trip args p mem_mb cpu last_action
     else ret last_action)
    is_gone
    (fun _ => ret last_action).

(** Lines 101-125: the [for] loop. *)
Fixpoint check_procs (args : Args) (procs : list proc) (last_action : option Q)
    : M (option Q) :=
  match procs with
  | [] => ret last_action
  | p :: rest =>
      last_action <- check_proc args p last_action ;;
      check_procs args rest last_action
  end.

(** Lines 91-98: the branch taken when no process was found. *)
Definition not_found (args : Args) (last_action : option Q) : M (option Q) :=
  perform (logging_log LvlWarning "Процесс не найден: %s") ;;;
  match as_truthy (start_cmd args) with
  | Some cmd =>
      open <- cooldown_open args last_action ;;
      if open then
        ' (ok, msg) <- restart_via_command cmd ;;
        perform (logging_log LvlInfo "Попытка старта: %s, %s") ;;;
        if ok then
          now <- perform datetime_now ;;
          notify_webhook (webhook args) (MsgStarted (name args) now) ;;;
          t <- perform time_time ;;
          ret (Some t)
        else ret last_action
      else ret last_action
  | None => ret last_action
  end.

(** Lines 80-88: resolving the target. *)
Definition resolve (args : Args) : M (list proc) :=
  match as_truthy (pid args) with
  | Some pid_arg =>
      try_except
        (p <- attempt (psutil_Process pid_arg) ;; ret [p])
        any_exception
        (fun _ => ret [])
  | None => find_processes_by_name (name args)
  end.

(** Lines 80-125: one pass of the [while] body, up to the sleep. *)
Definition tick (args : Args) (last_action : option Q) : M (option Q) :=
  procs <- resolve args ;;
  match procs with
  | [] => not_found args last_action
  | _ => check_procs args procs last_action
  end.

(** How a bounded run of [main] ends. *)
Inductive outcome : Type :=
| StillLooping
| Raised (e : exn)
| SystemExit (status : Z) (report : string).

(** Lines 141-142: the error [parser.error] is called with, if any. *)
Definition selector_error (args : Args) : option string :=
  match as_truthy (name args), as_truthy (pid args) with
  | None, None => Some "Must specify --name or --pid"
  | _, _ => None
  end.

(** Lines 130-143: parse, validate, call [main].  [parse_args] exits by
    itself on a command line it rejects (status 2) or on [--help] (status
    0); [parser.error] prints the report and exits with status 2. *)
Definition startup (enter_main : Args -> prog outcome) : prog outcome :=
  Vis parse_args
      (fun r => match r with
                | inl (status, report) => Ret (SystemExit status report)
                | inr args =>
                    match selector_error args with
                    | Some report => Ret (SystemExit 2 report)
                    | None => enter_main args
                    end
                end).

(** What follows the body of the [while]: line 127, then the block of lines
    129-143, which the source indents into the loop.  [again last_action] is
    the next iteration of this loop, [enter_main] a fresh call of [main]. *)
Definition after_tick (args : Args) (body : M (option Q))
    (again : option Q -> prog outcome) (enter_main : Args -> prog outcome)
    : prog outcome :=
  bind body
       (fun r => match r with
                 | inl e => Ret (Raised e)
                 | inr last_action =>
                     Vis (time_sleep (interval args))
                         (fun slept =>
                            match slept with
                            | inl e => Ret (Raised e)
                            | inr _ =>
                                if String.eqb dunder_name "__main__"
                                then startup enter_main
                                else again last_action
                            end)
                 end).

(** Lines 76-78: [main(args)] logs and starts with [last_action = None];
    [loop] is the [while] of line 79. *)
Definition enter (loop : Args -> option Q -> prog outcome) (args : Args)
    : prog outcome :=
  Vis (logging_log LvlInfo "Запуск ProcessWatchdog для '%s' (интервал=%ss)")
      (fun _ => loop args None).

(** Lines 79-143: [fuel] iterations of the [while True] loop, nested calls of
    [main] included. *)
Fixpoint main_loop (fuel : nat) (args : Args) (last_action : option Q)
    : prog outcome :=
  match fuel with
  | O => Ret StillLooping
  | S fuel' =>
      after_tick args (tick args last_action)
                 (fun last_action' => main_loop fuel' args last_action')
                 (enter (main_loop fuel'))
  end.

(** Lines 76-143: [main(args)], cut after [fuel] iterations. *)
Definition main (fuel : nat) (args : Args) : prog outcome :=
  enter (main_loop fuel) args.

End Module_globals.

(** The file run as a script: the statements at the top level of the module.
    Lines 6-16 import the libraries (taken to succeed; [requests_installed]
    records the optional one), lines 18-22 set the format of the log, and the
    [def] statements of lines 24-76 bind the six functions and call none of
    them.  The block of lines 129-143 is indented under the [while] of
    [main]: it is part of the body of [main] (see [after_tick]), and the
    module has no statement after [def main].  So the script makes no call
    that is recorded here, and the interpreter ends with exit status 0. *)
Definition script : prog Z := Ret 0%Z.

End Watchdog.
Import Watchdog.

(** ** Observations on traces *)

(** The calls made by the three recovery strategies. *)
Definition is_strategy_call {R : Type} (c : call R) : bool :=
  match c with
  | run_systemctl_restart _ | run_shell _ | proc_name _ | proc_terminate _
  | proc_wait _ _ | proc_kill _ | popen_shell _ => true
  | _ => false
  end.

Definition is_strategy_event (e : event) : bool :=
  match e with Ev _ c _ => is_strategy_call c end.

Definition strategy_events (tr : list event) : list event :=
  filter is_strategy_event tr.

Definition event_time (e : event) : Q :=
  match e with Ev t _ _ => t end.

(** The times at which recovery actions were dispatched. *)
Definition dispatch_times (tr : list event) : list Q :=
  map event_time (strategy_events tr).

(** The exception an event's call raised, if it raised one. *)
Definition raised_by (e : event) : option exn :=
  match e with
  | Ev _ c r =>
      match c in call R return R -> option exn with
      | psutil_Process _ => fun r => match r with inl x => Some x | inr _ => None end
      | memory_info_rss _ => fun r => match r with inl x => Some x | inr _ => None end
      | cpu_percent _ _ => fun r => match r with inl x => Some x | inr _ => None end
      | proc_name _ => fun r => match r with inl x => Some x | inr _ => None end
      | proc_terminate _ => fun r => match r with inl x => Some x | inr _ => None end
      | proc_wait _ _ => fun r => match r with inl x => Some x | inr _ => None end
      | proc_kill _ => fun r => match r with inl x => Some x | inr _ => None end
      | run_systemctl_restart _ => fun r => match r with inl x => Some x | inr _ => None end
      | run_shell _ => fun r => match r with inl x => Some x | inr _ => None end
      | popen_shell _ => fun r => match r with inl x => Some x | inr _ => None end
      | requests_post _ _ _ => fun r => match r with inl x => Some x | inr _ => None end
      | _ => fun _ => None
      end r
  end.

(** The external calls of a trace that are not logging, without their
    answers: a summary of what was done, in order. *)
Inductive action : Type :=
| ASystemctl (unit_name : string)
| AShell (cmd : string)
| AName (p : proc)
| ATerminate (p : proc)
| AWait (p : proc) (timeout : Z)
| AKill (p : proc)
| APopen (cmd : string)
| APost (url : string) (text : message) (timeout : Z)
| AOther.

Definition action_of (e : event) : option action :=
  match e with
  | Ev _ c _ =>
      match c with
      | logging_log _ _ => None
      | run_systemctl_restart u => Some (ASystemctl u)
      | run_shell cmd => Some (AShell cmd)
      | proc_name p => Some (AName p)
      | proc_terminate p => Some (ATerminate p)
      | proc_wait p t => Some (AWait p t)
      | proc_kill p => Some (AKill p)
      | popen_shell cmd => Some (APopen cmd)
      | requests_post u m t => Some (APost u m t)
      | _ => Some AOther
      end
  end.

Fixpoint actions (tr : list event) : list action :=
  match tr with
  | [] => []
  | e :: rest =>
      match action_of e with
      | Some a => a :: actions rest
      | None => actions rest
      end
  end.

(** The strategies among the actions. *)
Definition is_strategy_action (a : action) : bool :=
  match a with
  | APost _ _ _ | AOther => false
  | _ => true
  end.

(** Whether the bounded wait of a trace ran into its timeout. *)
Definition wait_timed_out (tr : list event) : bool :=
  existsb (fun e => match action_of e, raised_by e with
                    | Some (AWait _ _), Some x => is_timeout x
                    | _, _ => false
                    end) tr.

(** What terminate-and-restart does when nothing fails unexpectedly. *)
Definition kill_and_start_plan (p : proc) (start : option string)
    (timed_out : bool) : list action :=
  ([AName p; ATerminate p; AWait p 10]
   ++ (if timed_out then [AKill p] else [])
   ++ match as_truthy start with
      | Some cmd => [APopen cmd]
      | None => []
      end)%list.

(** A call of the termination sequence failed other than by the timeout of
    the wait. *)
Definition aborted (tr : list event) : bool :=
  existsb (fun e => match action_of e, raised_by e with
                    | Some (AName _), Some _ => true
                    | Some (ATerminate _), Some _ => true
                    | Some (AKill _), Some _ => true
                    | Some (AWait _ _), Some x => negb (is_timeout x)
                    | _, _ => false
                    end) tr.

Definition is_kill (a : action) : bool :=
  match a with AKill _ => true | _ => false end.

Definition is_popen (a : action) : bool :=
  match a with APopen _ => true | _ => false end.


(** ** The steps of one escalation *)

(** [handle_trip] cut at its statement boundaries (lemma [handle_trip_steps]
    shows that it is their sequence). *)
Section Steps.

Variable requests_installed : bool.

(** Lines 110-113. *)
Definition service_step (args : Args) (last_action : option Q) : M bool :=
  match as_truthy (service args) with
  | Some svc =>
      open <- cooldown_open args last_action ;;
      if open then
        ' (ok, msg) <- restart_via_systemctl svc ;;
        perform (logging_log LvlInfo "systemctl restart: %s, %s") ;;;
        ret ok
      else ret false
  | None => ret false
  end.

(** Lines 114-117. *)
Definition start_cmd_step (args : Args) (last_action : option Q)
    (action_taken : bool) : M bool :=
  if negb action_taken then
    match as_truthy (start_cmd args) with
    | Some cmd =>
        open <- cooldown_open args last_action ;;
        if open then
          ' (ok, msg) <- restart_via_command cmd ;;
          perform (logging_log LvlInfo "start_cmd: %s, %s") ;;;
          ret ok
        else ret action_taken
    | None => ret action_taken
    end
  else ret action_taken.

(** Lines 118-121. *)
Definition kill_step (args : Args) (p : proc) (last_action : option Q)
    (action_taken : bool) : M bool :=
  if negb action_taken then
    open <- cooldown_open args last_action ;;
    if open then
      ' (ok, msg) <- kill_and_start p (start_cmd args) ;;
      perform (logging_log LvlInfo "kill/start: %s, %s") ;;;
      ret ok
    else ret action_taken
  else ret action_taken.

(** Lines 122-123. *)
Definition finish_trip (args : Args) (p : proc) (mem_mb cpu : Q) : M (option Q) :=
  now <- perform datetime_now ;;
  notify_webhook requests_installed (webhook args)
    (MsgRestarted (name args) (proc_pid p) now mem_mb cpu) ;;;
  t <- perform time_time ;;
  ret (Some t).

(** Lines 97-98. *)
Definition finish_start (args : Args) : M (option Q) :=
  now <- perform datetime_now ;;
  notify_webhook requests_installed (webhook args) (MsgStarted (name args) now) ;;;
  t <- perform time_time ;;
  ret (Some t).

(** The rest of a run: the processes still to check in the current pass of
    the loop, then [fuel] further passes. *)
Definition rest_of_run (dunder_name : string) (fuel : nat) (args : Args)
    (pending : list proc) (last_action : option Q) : prog outcome :=
  after_tick dunder_name args
    (check_procs requests_installed args pending last_action)
    (fun last_action' => main_loop requests_installed dunder_name fuel args last_action')
    (enter (main_loop requests_installed dunder_name fuel)).

End Steps.

(** ** More observations *)

Definition strategy_actions (tr : list event) : list action :=
  filter is_strategy_action (actions tr).

(** A service restart, or a start command, that reported success. *)
Definition systemctl_ok (tr : list event) : bool :=
  existsb (fun e => match action_of e, raised_by e with
                    | Some (ASystemctl _), None => true
                    | _, _ => false
                    end) tr.

Definition shell_ok (tr : list event) : bool :=
  existsb (fun e => match action_of e, raised_by e with
                    | Some (AShell _), None => true
                    | _, _ => false
                    end) tr.

Definition is_post (a : action) : bool :=
  match a with APost _ _ _ => true | _ => false end.

(** The exceptions raised by the calls of a trace. *)
Fixpoint raised (tr : list event) : list exn :=
  match tr with
  | [] => []
  | e :: rest =>
      match raised_by e with
      | Some x => x :: raised rest
      | None => raised rest
      end
  end.

(** The cooldown test of lines 110, 114 and 118, evaluated in the world [w]. *)
Definition gate_open {W : Type} (E : env W) (args : Args) (last_action : option Q)
    (w : W) : bool :=
  match result_of E (cooldown_open args last_action) w with
  | inr open => open
  | inl _ => false
  end.

(** ** Environments with a clock *)

(** [time.time()] reads the world clock, and the clock never runs backwards. *)
Record lawful {W : Type} (E : env W) : Prop := mkLawful {
  clock_read : forall w, fst (respond E time_time w) = clock E w;
  clock_mono : forall (R : Type) (c : call R) (w : W),
      clock E w <= clock E (snd (respond E c w))
}.

(** ** A scripted environment *)

(** Fixed answers for every call; the world is the clock.  Sleeping advances
    the clock by the seconds slept (a negative length raises), running a
    command takes one second, the other calls take no time. *)
Record scenario : Type := mkScenario {
  sc_entries : list proc_entry;
  sc_process : exn + proc;
  sc_rss : exn + Z;
  sc_cpu : exn + Q;
  sc_name : exn + string;
  sc_terminate : exn + unit;
  sc_wait : exn + unit;
  sc_kill : exn + unit;
  sc_systemctl : exn + unit;
  sc_shell : exn + unit;
  sc_popen : exn + unit;
  sc_post : exn + unit;
  sc_argv : (Z * string) + Args
}.

Definition scripted_respond (s : scenario) (R : Type) (c : call R) : Q -> R * Q :=
  match c in call R return Q -> R * Q with
  | time_time => fun w => (w, w)
  | time_sleep secs =>
      fun w => if (secs <? 0)%Z
               then (inl (OtherException "sleep length must be non-negative"), w)
               else (inr tt, w + inject_Z secs)
  | datetime_now => fun w => ("2026-01-01 00:00:00", w)
  | logging_log _ _ => fun w => (tt, w)
  | process_iter => fun w => (sc_entries s, w)
  | psutil_Process _ => fun w => (sc_process s, w)
  | memory_info_rss _ => fun w => (sc_rss s, w)
  | cpu_percent _ _ => fun w => (sc_cpu s, w)
  | proc_name _ => fun w => (sc_name s, w)
  | proc_terminate _ => fun w => (sc_terminate s, w)
  | proc_wait _ _ => fun w => (sc_wait s, w)
  | proc_kill _ => fun w => (sc_kill s, w)
  | run_systemctl_restart _ => fun w => (sc_systemctl s, w + 1)
  | run_shell _ => fun w => (sc_shell s, w + 1)
  | popen_shell _ => fun w => (sc_popen s, w)
  | requests_post _ _ _ => fun w => (sc_post s, w)
  | parse_args => fun w => (sc_argv s, w)
  end.

Definition scripted (s : scenario) : env Q :=
  {| clock := fun w => w; respond := scripted_respond s |}.

(** Everything succeeds, no process matches. *)
Definition calm : scenario :=
  {| sc_entries := [];
     sc_process := inr (mkProc 4242);
     sc_rss := inr (150 * 1024 ^ 2)%Z;
     sc_cpu := inr 10;
     sc_name := inr "app";
     sc_terminate := inr tt;
     sc_wait := inr tt;
     sc_kill := inr tt;
     sc_systemctl := inr tt;
     sc_shell := inr tt;
     sc_popen := inr tt;
     sc_post := inr tt;
     sc_argv := inl (2%Z, "usage: process_monitor.py [-h] ...") |}.

(** The defaults of lines 131-139. *)
Definition default_args : Args :=
  {| name := None; pid := None;
     max_mem_mb := Some 1024; max_cpu := Some 80;
     interval := 15; service := None; start_cmd := None;
     webhook := None; cooldown := 300 |}.

(** A watchdog for the service [app], with both recovery commands. *)
Definition app_args : Args :=
  {| name := Some "app"; pid := None;
     max_mem_mb := Some 100; max_cpu := Some 50;
     interval := 15; service := Some "app"; start_cmd := Some "app start";
     webhook := Some "http://hooks.example/watchdog"; cooldown := 300 |}.

(** The same without a service name. *)
Definition start_only_args : Args :=
  {| name := Some "app"; pid := None;
     max_mem_mb := Some 100; max_cpu := Some 50;
     interval := 15; service := None; start_cmd := Some "app start";
     webhook := Some "http://hooks.example/watchdog"; cooldown := 300 |}.

(** The same, polling less often than the cooldown. *)
Definition slow_poll_args : Args :=
  {| name := Some "app"; pid := None;
     max_mem_mb := Some 100; max_cpu := Some 50;
     interval := 400; service := None; start_cmd := Some "app start";
     webhook := Some "http://hooks.example/watchdog"; cooldown := 300 |}.

(** Both selectors given. *)
Definition both_selectors : Args :=
  {| name := Some "app"; pid := Some "4242";
     max_mem_mb := Some 1024; max_cpu := Some 80;
     interval := 15; service := None; start_cmd := None;
     webhook := None; cooldown := 300 |}.

(** No process matches and the start command fails. *)
Definition failing_start : scenario :=
  {| sc_entries := [];
     sc_process := inr (mkProc 4242);
     sc_rss := inr (150 * 1024 ^ 2)%Z;
     sc_cpu := inr 10;
     sc_name := inr "app";
     sc_terminate := inr tt;
     sc_wait := inr tt;
     sc_kill := inr tt;
     sc_systemctl := inr tt;
     sc_shell := inl (OtherException "Command 'app start' returned non-zero exit status 1.");
     sc_popen := inr tt;
     sc_post := inr tt;
     sc_argv := inl (2%Z, "usage: process_monitor.py [-h] ...") |}.

(** The command line parses to the given namespace. *)
Definition called_with (args : Args) : scenario :=
  {| sc_entries := [];
     sc_process := inr (mkProc 4242);
     sc_rss := inr (150 * 1024 ^ 2)%Z;
     sc_cpu := inr 10;
     sc_name := inr "app";
     sc_terminate := inr tt;
     sc_wait := inr tt;
     sc_kill := inr tt;
     sc_systemctl := inr tt;
     sc_shell := inr tt;
     sc_popen := inr tt;
     sc_post := inr tt;
     sc_argv := inr args |}.

(** Four processes, one of which vanished. *)
Definition some_entries : list proc_entry :=
  [ mkEntry (mkProc 1) (inr (mkInfo (Some "nginx") (Some ["nginx"; "-g"; "daemon off;"])));
    mkEntry (mkProc 2) (inl (NoSuchProcess "process no longer exists (pid=2)"));
    mkEntry (mkProc 3) (inr (mkInfo (Some "python3") (Some ["python3"; "/srv/nginx_exporter.py"])));
    mkEntry (mkProc 4) (inr (mkInfo (Some "sshd") None)) ].

Definition listing (entries : list proc_entry) : scenario :=
  {| sc_entries := entries;
     sc_process := inr (mkProc 4242);
     sc_rss := inr (150 * 1024 ^ 2)%Z;
     sc_cpu := inr 10;
     sc_name := inr "app";
     sc_terminate := inr tt;
     sc_wait := inr tt;
     sc_kill := inr tt;
     sc_systemctl := inr tt;
     sc_shell := inr tt;
     sc_popen := inr tt;
     sc_post := inr tt;
     sc_argv := inl (2%Z, "usage: process_monitor.py [-h] ...") |}.

(** ** The specification's words *)

(** Name mode as the specification describes it: the reported name equals
    the target, or the target is a substring of the joined command line. *)
Definition spec_name_match (target : string) (p : proc_entry) : Prop :=
  exists i, info p = inr i /\
    (info_name i = Some target \/
     exists cmdline pre post,
       info_cmdline i = Some cmdline /\
       join_space cmdline = pre ++ target ++ post).

(** What line 28 selects, as a boolean. *)
Definition entry_selected (target : string) (p : proc_entry) : bool :=
  match entry_matches (Some target) p with
  | inr true => true
  | _ => false
  end.

(** "Exactly one of name/pid must be supplied." *)
Definition spec_selector_valid (args : Args) : bool :=
  match as_truthy (name args), as_truthy (pid args) with
  | Some _, None | None, Some _ => true
  | _, _ => false
  end.

(** A threshold that is configured, nonzero and exceeded. *)
Definition exceeds (threshold : option Q) (measured : Q) : Prop :=
  exists m, threshold = Some m /\ ~ m == 0 /\ m < measured.

(** A computation that never raises, whatever the environment answers. *)
Definition returns {W A : Type} (E : env W) (m : M A) : Prop :=
  forall w, exists a, result_of E m w = inr a.

(** ** The cooldown gate along a run *)

(** Every recovery action the program dispatches from a world whose clock
    has reached [u] comes more than [c] seconds after [u]. *)
Definition gated {W A : Type} (E : env W) (c : Z) (u : Q) (m : prog A) : Prop :=
  forall w, u <= clock E w ->
  forall t, In t (dispatch_times (trace_of E m w)) -> inject_Z c < t - u.

(** [gated], and the timestamp the program leaves is a clock reading not
    before [u]. *)
Definition respects {W : Type} (E : env W) (c : Z) (u : Q) (m : M (option Q)) : Prop :=
  forall w, u <= clock E w ->
  (forall t, In t (dispatch_times (trace_of E m w)) -> inject_Z c < t - u) /\
  (forall L, result_of E m w = inr L ->
             exists u', L = Some u' /\ u <= u' /\ u' <= clock E (world_after E m w)).

(** A program that dispatches no recovery action. *)
Definition quiet {W A : Type} (E : env W) (m : prog A) : Prop :=
  forall w, strategy_events (trace_of E m w) = [].

(** An event of [time.time()] that returned the time it was made at. *)
Definition reads_clock (e : event) : Prop :=
  match e with
  | Ev t c r =>
      match c in call R return R -> Prop with
      | time_time => fun now => now = t
      | _ => fun _ => True
      end r
  end.

(** ** Further observations and environments *)

(** The one action of an optional command, when it is configured. *)
Definition opt_action (f : string -> action) (o : option string) : list action :=
  match as_truthy o with
  | Some s => [f s]
  | None => []
  end.

(** The detached launch of the start command raised. *)
Definition launch_failed (tr : list event) : bool :=
  existsb (fun e => match action_of e, raised_by e with
                    | Some (APopen _), Some _ => true
                    | _, _ => false
                    end) tr.

(** An entry that can be read, reports a name and has a command line. *)
Definition named_with_cmdline (p : proc_entry) : Prop :=
  exists n a c, info p = inr (mkInfo (Some n) (Some (a :: c))).

(** What psutil and [time.sleep] do in normal operation: sampling and
    reading an entry fail only with [NoSuchProcess] or [AccessDenied], and
    sleeping for the configured interval does not fail. *)
Record tame {W : Type} (E : env W) (args : Args) : Prop := mkTame {
  tame_rss : forall w p e,
      fst (respond E (memory_info_rss p) w) = inl e -> is_gone e = true;
  tame_cpu : forall w p window e,
      fst (respond E (cpu_percent p window) w) = inl e -> is_gone e = true;
  tame_entries : forall w q e,
      In q (fst (respond E process_iter w)) -> info q = inl e -> is_gone e = true;
  tame_sleep : forall w,
      exists u, fst (respond E (time_sleep (interval args)) w) = inr u
}.

(** A computation that raises nothing but exceptions of the classes [P]. *)
Definition raises_only {W A : Type} (E : env W) (P : exn -> bool) (m : M A) : Prop :=
  forall w e, result_of E m w = inl e -> P e = true.

(** What the calls of [time.time()] in a trace returned, in order. *)
Definition reading (e : event) : option Q :=
  match e with
  | Ev _ c r =>
      match c in call R return R -> option Q with
      | time_time => fun now => Some now
      | _ => fun _ => None
      end r
  end.

Fixpoint clock_readings (tr : list event) : list Q :=
  match tr with
  | [] => []
  | e :: rest =>
      match reading e with
      | Some now => now :: clock_readings rest
      | None => clock_readings rest
      end
  end.

(** Every clock reading of the trace is at most [c] seconds after [u]. *)
Definition within_cooldown (c : Z) (u : Q) (tr : list event) : Prop :=
  forall now, In now (clock_readings tr) -> Qltb (inject_Z c) (now - u) = false.

(** Sampling fails with an error psutil does not document for it. *)
Definition broken_sampling : scenario :=
  {| sc_entries := [];
     sc_process := inr (mkProc 4242);
     sc_rss := inl (OtherException "OSError: [Errno 5] Input/output error");
     sc_cpu := inr 10;
     sc_name := inr "app";
     sc_terminate := inr tt;
     sc_wait := inr tt;
     sc_kill := inr tt;
     sc_systemctl := inr tt;
     sc_shell := inr tt;
     sc_popen := inr tt;
     sc_post := inr tt;
     sc_argv := inl (2%Z, "usage: process_monitor.py [-h] ...") |}.

(** The process is gone when it is sampled. *)
Definition vanishing : scenario :=
  {| sc_entries := [];
     sc_process := inr (mkProc 4242);
     sc_rss := inl (NoSuchProcess "process no longer exists (pid=4242)");
     sc_cpu := inr 10;
     sc_name := inr "app";
     sc_terminate := inr tt;
     sc_wait := inr tt;
     sc_kill := inr tt;
     sc_systemctl := inr tt;
     sc_shell := inr tt;
     sc_popen := inr tt;
     sc_post := inr tt;
     sc_argv := inl (2%Z, "usage: process_monitor.py [-h] ...") |}.

(** The watchdog itself, started with [--name nginx], among the processes. *)
Definition with_watchdog : list proc_entry :=
  [ mkEntry (mkProc 10) (inr (mkInfo (Some "sshd") (Some ["sshd"; "-D"])));
    mkEntry (mkProc 77)
      (inr (mkInfo (Some "python3")
              (Some ["python3"; "process_monitor.py"; "--name"; "nginx"]))) ].

(** An entry that cannot be read, for a reason psutil does not document. *)
Definition unreadable : list proc_entry :=
  [ mkEntry (mkProc 1) (inr (mkInfo (Some "nginx") (Some ["nginx"])));
    mkEntry (mkProc 2) (inl (OtherException "KeyError: 'name'"));
    mkEntry (mkProc 3) (inr (mkInfo (Some "nginx") (Some ["nginx"; "-g"]))) ].

(** The process has already exited when the fallback starts. *)
Definition already_gone : scenario :=
  {| sc_entries := [];
     sc_process := inr (mkProc 4242);
     sc_rss := inr (150 * 1024 ^ 2)%Z;
     sc_cpu := inr 10;
     sc_name := inl (NoSuchProcess "process no longer exists (pid=4242)");
     sc_terminate := inl (NoSuchProcess "process no longer exists (pid=4242)");
     sc_wait := inr tt;
     sc_kill := inr tt;
     sc_systemctl := inr tt;
     sc_shell := inr tt;
     sc_popen := inr tt;
     sc_post := inr tt;
     sc_argv := inl (2%Z, "usage: process_monitor.py [-h] ...") |}.
(** ** Running programs *)

Section Running.

Context {W : Type} (E : env W).

Lemma run_bind {A B : Type} (m : prog A) (f : A -> prog B) (w : W) :
  run E (bind m f) w =
  let '(a, w1, t1) := run E m w in
  let '(b, w2, t2) := run E (f a) w1 in
  (b, w2, (t1 ++ t2)%list).
Proof.
  revert w; induction m as [a | R c k IH]; intro w; simpl.
  - destruct (run E (f a) w) as [[b w2] t2]; reflexivity.
  - destruct (respond E c w) as [r w1].
    rewrite IH.
    destruct (run E (k r) w1) as [[a w2] t1].
    destruct (run E (f a) w2) as [[b w3] t2]; reflexivity.
Qed.

Lemma result_bind {A B : Type} (m : prog A) (f : A -> prog B) (w : W) :
  result_of E (bind m f) w = result_of E (f (result_of E m w)) (world_after E m w).
Proof.
  unfold result_of, world_after; rewrite run_bind.
  destruct (run E m w) as [[a w1] t1]; simpl.
  destruct (run E (f a) w1) as [[b w2] t2]; reflexivity.
Qed.

Lemma world_bind {A B : Type} (m : prog A) (f : A -> prog B) (w : W) :
  world_after E (bind m f) w = world_after E (f (result_of E m w)) (world_after E m w).
Proof.
  unfold result_of, world_after; rewrite run_bind.
  destruct (run E m w) as [[a w1] t1]; simpl.
  destruct (run E (f a) w1) as [[b w2] t2]; reflexivity.
Qed.

Lemma trace_bind {A B : Type} (m : prog A) (f : A -> prog B) (w : W) :
  trace_of E (bind m f) w =
  (trace_of E m w ++ trace_of E (f (result_of E m w)) (world_after E m w))%list.
Proof.
  unfold trace_of, result_of, world_after; rewrite run_bind.
  destruct (run E m w) as [[a w1] t1]; simpl.
  destruct (run E (f a) w1) as [[b w2] t2]; reflexivity.
Qed.

Lemma run_parts {A : Type} (m : prog A) (w : W) :
  run E m w = (result_of E m w, world_after E m w, trace_of E m w).
Proof.
  unfold result_of, world_after, trace_of.
  destruct (run E m w) as [[a w1] t1]; reflexivity.
Qed.

Lemma run_bindM {A B : Type} (m : M A) (f : A -> M B) (w : W) :
  run E (bindM m f) w =
  match result_of E m w with
  | inl e => (inl e, world_after E m w, trace_of E m w)
  | inr a =>
      (result_of E (f a) (world_after E m w),
       world_after E (f a) (world_after E m w),
       (trace_of E m w ++ trace_of E (f a) (world_after E m w))%list)
  end.
Proof.
  unfold bindM; rewrite run_bind.
  unfold result_of, world_after, trace_of.
  destruct (run E m w) as [[[e | a] w1] t1]; simpl.
  - rewrite app_nil_r; reflexivity.
  - destruct (run E (f a) w1) as [[b w2] t2]; reflexivity.
Qed.

Lemma result_bindM {A B : Type} (m : M A) (f : A -> M B) (w : W) (a : A) :
  result_of E m w = inr a ->
  result_of E (bindM m f) w = result_of E (f a) (world_after E m w).
Proof.
  intro H; unfold result_of at 1; rewrite run_bindM, H; reflexivity.
Qed.

Lemma world_bindM {A B : Type} (m : M A) (f : A -> M B) (w : W) (a : A) :
  result_of E m w = inr a ->
  world_after E (bindM m f) w = world_after E (f a) (world_after E m w).
Proof.
  intro H; unfold world_after at 1; rewrite run_bindM, H; reflexivity.
Qed.

Lemma trace_bindM {A B : Type} (m : M A) (f : A -> M B) (w : W) (a : A) :
  result_of E m w = inr a ->
  trace_of E (bindM m f) w =
  (trace_of E m w ++ trace_of E (f a) (world_after E m w))%list.
Proof.
  intro H; unfold trace_of at 1; rewrite run_bindM, H; reflexivity.
Qed.

Lemma run_perform {R : Type} (c : call R) (w : W) :
  run E (perform c) w =
  (inr (fst (respond E c w)), snd (respond E c w),
   [Ev (clock E w) c (fst (respond E c w))]).
Proof.
  unfold perform; simpl; destruct (respond E c w); reflexivity.
Qed.

Lemma run_perform_bindM {R B : Type} (c : call R) (f : R -> M B) (w : W) :
  run E (bindM (perform c) f) w =
  let '(r, w1) := respond E c w in
  let '(b, w2, tr) := run E (f r) w1 in
  (b, w2, Ev (clock E w) c r :: tr).
Proof. reflexivity. Qed.

Lemma run_try_except {A : Type} (body : M A) (catches : exn -> bool)
    (handler : exn -> M A) (w : W) :
  run E (try_except body catches handler) w =
  match result_of E body w with
  | inl e =>
      if catches e
      then (result_of E (handler e) (world_after E body w),
            world_after E (handler e) (world_after E body w),
            (trace_of E body w ++ trace_of E (handler e) (world_after E body w))%list)
      else (inl e, world_after E body w, trace_of E body w)
  | inr a => (inr a, world_after E body w, trace_of E body w)
  end.
Proof.
  unfold try_except; rewrite run_bind.
  unfold result_of, world_after, trace_of.
  destruct (run E body w) as [[[e | a] w1] t1]; cbn [fst snd].
  - destruct (catches e).
    + destruct (run E (handler e) w1) as [[b w2] t2]; reflexivity.
    + cbn; rewrite app_nil_r; reflexivity.
  - cbn; rewrite app_nil_r; reflexivity.
Qed.

Lemma returns_ret {A : Type} (a : A) : returns E (ret a).
Proof. intro w; exists a; reflexivity. Qed.

Lemma returns_perform {R : Type} (c : call R) : returns E (perform c).
Proof.
  intro w; unfold result_of; rewrite run_perform; eexists; reflexivity.
Qed.

Lemma returns_bindM {A B : Type} (m : M A) (f : A -> M B) :
  returns E m -> (forall a, returns E (f a)) -> returns E (bindM m f).
Proof.
  intros Hm Hf w.
  destruct (Hm w) as [a Ha].
  rewrite (result_bindM m f w a Ha).
  apply Hf.
Qed.

Lemma returns_try_except {A : Type} (body : M A) (handler : exn -> M A) :
  (forall e, returns E (handler e)) ->
  returns E (try_except body any_exception handler).
Proof.
  intros Hh w.
  unfold try_except, result_of; rewrite run_bind.
  destruct (run E body w) as [[[e | a] w1] t1]; simpl.
  - destruct (Hh e w1) as [b Hb]; unfold result_of in Hb.
    destruct (run E (handler e) w1) as [[r w2] t2]; simpl in *.
    exists b; exact Hb.
  - exists a; reflexivity.
Qed.

End Running.

(** Destructs the answer of the next call of the goal's program, and the
    answer itself when the call can raise. *)
Ltac next_call E :=
  match goal with
  | |- context [respond E ?c ?w] =>
      let r := fresh "r" in
      let w' := fresh "w" in
      let H := fresh "Hcall" in
      is_var w;
      destruct (respond E c w) as [r w'] eqn:H;
      lazymatch type of r with
      | (_ + unit)%type => destruct r as [r | []]
      | (_ + _)%type => destruct r as [r | r]
      | unit => destruct r
      | _ => idtac
      end;
      cbn
  end.

(** Runs a program to its leaves, one case per combination of answers. *)
Ltac all_runs E :=
  cbn;
  repeat first
    [ next_call E
    | match goal with
      | |- context [is_timeout ?e] => is_var e; destruct e; cbn
      | |- context [as_truthy ?s] =>
          let H := fresh "Htruthy" in destruct (as_truthy s) eqn:H; cbn
      | |- context [truthy_num ?x] =>
          let H := fresh "Hlast" in destruct (truthy_num x) eqn:H; cbn
      | |- context [Qltb ?x ?y] =>
          let H := fresh "Hgate" in destruct (Qltb x y) eqn:H; cbn
      end ].

(** Identifies the answers of one call that was destructed twice. *)
Ltac merge_calls :=
  repeat match goal with
         | H : (_, _) = (_, _) |- _ => inversion H; subst; clear H
         | H1 : respond ?E ?c ?w = _, H2 : respond ?E ?c ?w = _ |- _ =>
             rewrite H1 in H2
         end.

(** ** The recovery strategies *)

Section Strategies.

Context {W : Type} (E : env W).
Variable requests_installed : bool.

Lemma restart_via_systemctl_run (svc : string) (w : W) :
  run E (restart_via_systemctl svc) w =
  let '(r, w1) := respond E (run_systemctl_restart svc) w in
  (inr match r with
       | inl e => (false, "systemctl restart failed: " ++ str e)
       | inr _ => (true, "systemctl restart выполнен")
       end,
   w1, [Ev (clock E w) (run_systemctl_restart svc) r]).
Proof.
  unfold restart_via_systemctl; cbn.
  destruct (respond E (run_systemctl_restart svc) w) as [[e | u] w1]; reflexivity.
Qed.

Lemma restart_via_command_run (cmd : string) (w : W) :
  run E (restart_via_command cmd) w =
  let '(r, w1) := respond E (run_shell cmd) w in
  (inr match r with
       | inl e => (false, "Команда рестарта `" ++ cmd ++ "` не удалась: " ++ str e)
       | inr _ => (true, "Команда рестарта `" ++ cmd ++ "` выполнена")
       end,
   w1, [Ev (clock E w) (run_shell cmd) r]).
Proof.
  unfold restart_via_command; cbn.
  destruct (respond E (run_shell cmd) w) as [[e | u] w1]; reflexivity.
Qed.

Lemma cooldown_open_run (args : Args) (last_action : option Q) (w : W) :
  run E (cooldown_open args last_action) w =
  if negb (truthy_num last_action) then (inr true, w, [])
  else
    let '(now, w1) := respond E time_time w in
    (inr (Qltb (inject_Z (cooldown args))
               (now - match last_action with Some t => t | None => 0 end)),
     w1, [Ev (clock E w) time_time now]).
Proof.
  unfold cooldown_open.
  destruct (negb (truthy_num last_action)); cbn; [reflexivity|].
  destruct (respond E time_time w); reflexivity.
Qed.

Lemma cooldown_open_returns (args : Args) (last_action : option Q) :
  returns E (cooldown_open args last_action).
Proof.
  intro w; unfold result_of; rewrite cooldown_open_run.
  destruct (negb (truthy_num last_action)); [eexists; reflexivity|].
  destruct (respond E time_time w); eexists; reflexivity.
Qed.

Lemma restart_via_systemctl_returns (svc : string) :
  returns E (restart_via_systemctl svc).
Proof. apply returns_try_except; intro e; apply returns_ret. Qed.

Lemma restart_via_command_returns (cmd : string) :
  returns E (restart_via_command cmd).
Proof. apply returns_try_except; intro e; apply returns_ret. Qed.

Lemma kill_and_start_returns (p : proc) (start : option string) :
  returns E (kill_and_start p start).
Proof.
  apply returns_try_except; intro e.
  apply returns_bindM; [apply returns_perform | intro; apply returns_ret].
Qed.

Lemma notify_webhook_returns (url : option string) (text : message) :
  returns E (notify_webhook requests_installed url text).
Proof.
  unfold notify_webhook.
  destruct (as_truthy url); [|apply returns_ret].
  destruct (negb requests_installed); [apply returns_perform|].
  apply returns_try_except; intro e; apply returns_perform.
Qed.

Create HintDb returns.

Local Hint Resolve returns_ret returns_perform cooldown_open_returns
  restart_via_systemctl_returns restart_via_command_returns
  kill_and_start_returns notify_webhook_returns : returns.

Ltac returns_auto :=
  repeat first
    [ progress auto with returns
    | apply returns_bindM; [|intros]
    | match goal with
      | |- returns _ (match ?x with _ => _ end) => destruct x
      | |- returns _ (let _ := ?x in _) => destruct x; cbn zeta
      end ].

Lemma service_step_returns (args : Args) (last_action : option Q) :
  returns E (service_step args last_action).
Proof. unfold service_step; returns_auto. Qed.

Lemma start_cmd_step_returns (args : Args) (last_action : option Q) (a : bool) :
  returns E (start_cmd_step args last_action a).
Proof. unfold start_cmd_step; returns_auto. Qed.

Lemma kill_step_returns (args : Args) (p : proc) (last_action : option Q) (a : bool) :
  returns E (kill_step args p last_action a).
Proof. unfold kill_step; returns_auto. Qed.

Lemma finish_trip_returns (args : Args) (p : proc) (mem_mb cpu : Q) :
  returns E (finish_trip requests_installed args p mem_mb cpu).
Proof. unfold finish_trip; returns_auto. Qed.

Lemma finish_start_returns (args : Args) :
  returns E (finish_start requests_installed args).
Proof. unfold finish_start; returns_auto. Qed.

Lemma handle_trip_steps (args : Args) (p : proc) (mem_mb cpu : Q)
    (last_action : option Q) :
  handle_trip requests_installed args p mem_mb cpu last_action =
  (perform (logging_log LvlWarning "Триггер для PID %s: mem=%.1fMB cpu=%.1f%%") ;;;
   a1 <- service_step args last_action ;;
   a2 <- start_cmd_step args last_action a1 ;;
   a3 <- kill_step args p last_action a2 ;;
   finish_trip requests_installed args p mem_mb cpu).
Proof. reflexivity. Qed.

Lemma handle_trip_returns (args : Args) (p : proc) (mem_mb cpu : Q)
    (last_action : option Q) :
  returns E (handle_trip requests_installed args p mem_mb cpu last_action).
Proof.
  rewrite handle_trip_steps.
  repeat (apply returns_bindM; [|intros]);
    auto using service_step_returns, start_cmd_step_returns,
      kill_step_returns, finish_trip_returns with returns.
Qed.

End Strategies.

(** *** Terminate-and-restart *)

Section Kill_and_start.

Context {W : Type} (E : env W).

Local Arguments str : simpl never.

Lemma kill_and_start_result (p : proc) (start : option string) (w : W) :
  let tr := trace_of E (kill_and_start p start) w in
  exists ok msg,
    result_of E (kill_and_start p start) w = inr (ok, msg) /\
    (ok = true ->
     msg = "kill+start выполнены" /\ forall e, In e (raised tr) -> is_timeout e = true) /\
    (ok = false -> exists e, In e (raised tr) /\ msg = str e).
Proof.
  unfold trace_of, result_of, kill_and_start.
  all_runs E;
    (eexists; eexists; split; [reflexivity|]; split; intro Hok;
     try discriminate Hok;
     first
       [ split; [reflexivity|];
         intros e He; cbn in He;
         repeat (destruct He as [<- | He]; [reflexivity|]); contradiction
       | eexists; split; [|reflexivity]; cbn; auto 6 ]).
Qed.

End Kill_and_start.

(** ** Thresholds *)

Lemma Qltb_lt (x y : Q) : Qltb x y = true <-> x < y.
Proof. unfold Qltb, Qlt; apply Z.ltb_lt. Qed.

Lemma Qltb_ge (x y : Q) : Qltb x y = false <-> y <= x.
Proof. unfold Qltb, Qle; rewrite Z.ltb_ge; reflexivity. Qed.

Lemma truthy_num_spec (o : option Q) :
  truthy_num o = true <-> exists q, o = Some q /\ ~ q == 0.
Proof.
  destruct o as [q|]; simpl.
  - rewrite negb_true_iff.
    split.
    + intro H; exists q; split; [reflexivity|].
      intro Hq; apply Qeq_bool_iff in Hq; congruence.
    + intros (q' & Hq' & Hne); inversion Hq'; subst q'.
      destruct (Qeq_bool q 0) eqn:Heq; [|reflexivity].
      apply Qeq_bool_iff in Heq; contradiction.
  - split; [discriminate | intros (q & Hq & _); discriminate].
Qed.

Lemma threshold_exceeded (threshold : option Q) (measured : Q) :
  truthy_num threshold &&
  match threshold with Some m => Qltb m measured | None => false end = true
  <-> exceeds threshold measured.
Proof.
  rewrite andb_true_iff, truthy_num_spec; unfold exceeds.
  split.
  - intros [(q & Hq & Hne) Hlt]; subst threshold.
    exists q; repeat split; [exact Hne | apply Qltb_lt; exact Hlt].
  - intros (q & Hq & Hne & Hlt); subst threshold.
    split; [exists q; split; [reflexivity | exact Hne] | apply Qltb_lt; exact Hlt].
Qed.

Lemma trips_spec (args : Args) (mem_mb cpu : Q) :
  trips args mem_mb cpu = true
  <-> exceeds (max_mem_mb args) mem_mb \/ exceeds (max_cpu args) cpu.
Proof.
  unfold trips; rewrite orb_true_iff, !threshold_exceeded; reflexivity.
Qed.

(** ** Name matching *)

Lemma prefix_spec (s t : string) :
  String.prefix s t = true <-> exists post, t = s ++ post.
Proof.
  revert t; induction s as [|a s IH]; intro t.
  - split; [intros _; exists t; reflexivity | intros _; destruct t; reflexivity].
  - destruct t as [|b t]; simpl.
    + split; [discriminate | intros [post H]; discriminate].
    + destruct (Ascii.ascii_dec a b) as [-> | Hne].
      * rewrite IH; split; intros [post H]; exists post.
        -- rewrite H; reflexivity.
        -- inversion H; reflexivity.
      * split; [discriminate|].
        intros [post H]; inversion H; congruence.
Qed.

Lemma str_contains_spec (needle hay : string) :
  str_contains needle hay = true <-> exists pre post, hay = pre ++ needle ++ post.
Proof.
  induction hay as [|c hay IH]; cbn [str_contains];
    rewrite orb_true_iff, prefix_spec.
  - split.
    + intros [[post H] | H]; [|discriminate].
      exists "", post; exact H.
    + intros (pre & post & H); left.
      destruct pre as [|x pre]; [|discriminate].
      exists post; exact H.
  - rewrite IH; split.
    + intros [[post H] | (pre & post & H)].
      * exists "", post; exact H.
      * exists (String c pre), post; simpl; rewrite H; reflexivity.
    + intros (pre & post & H).
      destruct pre as [|x pre]; simpl in H.
      * left; exists post; exact H.
      * right; inversion H; exists pre, post; reflexivity.
Qed.

Lemma entry_selected_spec (target : string) (p : proc_entry) :
  target <> "" ->
  entry_selected target p = true <-> spec_name_match target p.
Proof.
  intro Hne.
  unfold entry_selected, entry_matches, spec_name_match.
  destruct (info p) as [e | [n c]]; simpl.
  - split; [discriminate | intros (i & H & _); discriminate].
  - assert (Hjoin : forall l, str_contains target (join_space l) = true <->
                              exists pre post, join_space l = pre ++ target ++ post)
      by (intro l; apply str_contains_spec).
    assert (Hnil : ~ exists pre post, join_space [] = pre ++ target ++ post).
    { intros (pre & post & H); simpl in H.
      destruct pre; [destruct target; [contradiction | discriminate] | discriminate]. }
    destruct n as [n|].
    + destruct (String.eqb n target) eqn:Heq.
      * apply String.eqb_eq in Heq; subst n.
        split; [intros _ | reflexivity].
        eexists; split; [reflexivity | left; reflexivity].
      * apply String.eqb_neq in Heq.
        destruct c as [[|a c]|].
        -- split; [discriminate|].
           intros (i & Hi & [Hn | (l & pre & post & Hl & H)]); inversion Hi; subst i;
             simpl in *; [congruence|].
           inversion Hl; subst l; exfalso; apply Hnil; eauto.
        -- split.
           ++ intro H.
              destruct (str_contains target (join_space (a :: c))) eqn:Hc; [|discriminate].
              apply Hjoin in Hc; destruct Hc as (pre & post & Hc).
              eexists; split; [reflexivity|]; right.
              exists (a :: c), pre, post; split; [reflexivity | exact Hc].
           ++ intros (i & Hi & [Hn | (l & pre & post & Hl & H)]); inversion Hi; subst i;
                simpl in *; [congruence|].
              inversion Hl; subst l.
              assert (Hc : str_contains target (join_space (a :: c)) = true)
                by (apply Hjoin; eauto).
              rewrite Hc; reflexivity.
        -- split; [discriminate|].
           intros (i & Hi & [Hn | (l & pre & post & Hl & H)]); inversion Hi; subst i;
             simpl in *; [congruence | discriminate].
    + destruct c as [[|a c]|].
      * split; [discriminate|].
        intros (i & Hi & [Hn | (l & pre & post & Hl & H)]); inversion Hi; subst i;
          simpl in *; [discriminate|].
        inversion Hl; subst l; exfalso; apply Hnil; eauto.
      * split.
        -- intro H.
           destruct (str_contains target (join_space (a :: c))) eqn:Hc; [|discriminate].
           apply Hjoin in Hc; destruct Hc as (pre & post & Hc).
           eexists; split; [reflexivity|]; right.
           exists (a :: c), pre, post; split; [reflexivity | exact Hc].
        -- intros (i & Hi & [Hn | (l & pre & post & Hl & H)]); inversion Hi; subst i;
             simpl in *; [discriminate|].
           inversion Hl; subst l.
           assert (Hc : str_contains target (join_space (a :: c)) = true)
             by (apply Hjoin; eauto).
           rewrite Hc; reflexivity.
      * split; [discriminate|].
        intros (i & Hi & [Hn | (l & pre & post & Hl & H)]); inversion Hi; subst i;
          simpl in *; discriminate.
Qed.

Lemma scan_filter (target : string) (entries : list proc_entry) :
  (forall p e, In p entries -> info p = inl e -> is_gone e = true) ->
  scan (Some target) entries
  = inr (map handle (filter (entry_selected target) entries)).
Proof.
  induction entries as [|p rest IH]; intro Hgone; [reflexivity|].
  assert (IH' := IH (fun q e Hq => Hgone q e (or_intror Hq))); clear IH.
  cbn [scan filter]; unfold entry_selected at 1.
  destruct (entry_matches (Some target) p) as [e | [|]] eqn:Hm.
  - assert (He : info p = inl e).
    { unfold entry_matches in Hm.
      destruct (info p) as [e' | i]; [congruence|].
      destruct (match info_name i with Some n => String.eqb n target | None => false end);
        [discriminate|].
      destruct (info_cmdline i) as [[|a c]|]; discriminate. }
    rewrite (Hgone p e (or_introl eq_refl) He); exact IH'.
  - rewrite IH'; reflexivity.
  - exact IH'.
Qed.

(** ** Observations on concatenated traces *)

Lemma actions_app (a b : list event) :
  actions (a ++ b) = (actions a ++ actions b)%list.
Proof.
  induction a as [|e a IH]; [reflexivity|].
  cbn [actions app]; destruct (action_of e); rewrite IH; reflexivity.
Qed.

Lemma strategy_actions_app (a b : list event) :
  strategy_actions (a ++ b) = (strategy_actions a ++ strategy_actions b)%list.
Proof. unfold strategy_actions; rewrite actions_app; apply filter_app. Qed.

Lemma raised_app (a b : list event) :
  raised (a ++ b) = (raised a ++ raised b)%list.
Proof.
  induction a as [|e a IH]; [reflexivity|].
  cbn [raised app]; destruct (raised_by e); rewrite IH; reflexivity.
Qed.

Lemma dispatch_times_app (a b : list event) :
  dispatch_times (a ++ b) = (dispatch_times a ++ dispatch_times b)%list.
Proof.
  unfold dispatch_times, strategy_events; rewrite filter_app; apply map_app.
Qed.

Lemma strategy_events_app (a b : list event) :
  strategy_events (a ++ b) = (strategy_events a ++ strategy_events b)%list.
Proof. apply filter_app. Qed.

Lemma systemctl_ok_app (a b : list event) :
  systemctl_ok (a ++ b) = systemctl_ok a || systemctl_ok b.
Proof. apply existsb_app. Qed.

Lemma shell_ok_app (a b : list event) :
  shell_ok (a ++ b) = shell_ok a || shell_ok b.
Proof. apply existsb_app. Qed.

Lemma wait_timed_out_app (a b : list event) :
  wait_timed_out (a ++ b) = wait_timed_out a || wait_timed_out b.
Proof. apply existsb_app. Qed.

Lemma aborted_app (a b : list event) :
  aborted (a ++ b) = aborted a || aborted b.
Proof. apply existsb_app. Qed.

(** ** One escalation, step by step *)

Section Escalation.

Context {W : Type} (E : env W).
Variable requests_installed : bool.

Lemma notify_webhook_run (url : option string) (text : message) (w : W) :
  exists w1,
    result_of E (notify_webhook requests_installed url text) w = inr tt /\
    world_after E (notify_webhook requests_installed url text) w = w1 /\
    actions (trace_of E (notify_webhook requests_installed url text) w)
    = match as_truthy url with
      | Some u => if requests_installed then [APost u text 5] else []
      | None => []
      end /\
    strategy_events (trace_of E (notify_webhook requests_installed url text) w) = [].
Proof.
  unfold result_of, world_after, trace_of, notify_webhook.
  destruct (as_truthy url) as [u|]; [|cbn; eauto].
  destruct requests_installed; all_runs E; eauto.
Qed.

Lemma finish_trip_run (args : Args) (p : proc) (mem_mb cpu : Q)
    (w0 w1 w3 : W) (d : string) (t : Q) :
  respond E datetime_now w0 = (d, w1) ->
  let note := notify_webhook requests_installed (webhook args)
                (MsgRestarted (name args) (proc_pid p) d mem_mb cpu) in
  respond E time_time (world_after E note w1) = (t, w3) ->
  run E (finish_trip requests_installed args p mem_mb cpu) w0 =
  (inr (Some t), w3,
   (Ev (clock E w0) datetime_now d :: trace_of E note w1
    ++ [Ev (clock E (world_after E note w1)) time_time t])%list).
Proof.
  intros Hd note Ht.
  destruct (notify_webhook_run (webhook args)
              (MsgRestarted (name args) (proc_pid p) d mem_mb cpu) w1)
    as (w' & Hr & _).
  fold note in Hr.
  unfold finish_trip.
  rewrite run_perform_bindM, Hd.
  fold note.
  rewrite run_bindM, Hr.
  remember (world_after E note w1) as w2 eqn:Hw2.
  unfold result_of, world_after, trace_of.
  rewrite run_perform_bindM, Ht; reflexivity.
Qed.

Lemma finish_start_run (args : Args) (w0 w1 w3 : W) (d : string) (t : Q) :
  respond E datetime_now w0 = (d, w1) ->
  let note := notify_webhook requests_installed (webhook args)
                (MsgStarted (name args) d) in
  respond E time_time (world_after E note w1) = (t, w3) ->
  run E (finish_start requests_installed args) w0 =
  (inr (Some t), w3,
   (Ev (clock E w0) datetime_now d :: trace_of E note w1
    ++ [Ev (clock E (world_after E note w1)) time_time t])%list).
Proof.
  intros Hd note Ht.
  destruct (notify_webhook_run (webhook args) (MsgStarted (name args) d) w1)
    as (w' & Hr & _).
  fold note in Hr.
  unfold finish_start.
  rewrite run_perform_bindM, Hd.
  fold note.
  rewrite run_bindM, Hr.
  remember (world_after E note w1) as w2 eqn:Hw2.
  unfold result_of, world_after, trace_of.
  rewrite run_perform_bindM, Ht; reflexivity.
Qed.

(** The run of [handle_trip] is the run of its steps, one after the other. *)
Lemma handle_trip_run (args : Args) (p : proc) (mem_mb cpu : Q)
    (last_action : option Q) (w : W) :
  let trigger := logging_log LvlWarning "Триггер для PID %s: mem=%.1fMB cpu=%.1f%%" in
  let w0 := snd (respond E trigger w) in
  let fin := finish_trip requests_installed args p mem_mb cpu in
  exists a1 a2 a3,
    let s1 := service_step args last_action in
    let w1 := world_after E s1 w0 in
    let s2 := start_cmd_step args last_action a1 in
    let w2 := world_after E s2 w1 in
    let s3 := kill_step args p last_action a2 in
    let w3 := world_after E s3 w2 in
    result_of E s1 w0 = inr a1 /\
    result_of E s2 w1 = inr a2 /\
    result_of E s3 w2 = inr a3 /\
    run E (handle_trip requests_installed args p mem_mb cpu last_action) w =
    (result_of E fin w3, world_after E fin w3,
     (Ev (clock E w) trigger tt
      :: trace_of E s1 w0 ++ trace_of E s2 w1 ++ trace_of E s3 w2
         ++ trace_of E fin w3)%list).
Proof.
  intros trigger w0 fin.
  destruct (service_step_returns E args last_action w0) as [a1 H1].
  destruct (start_cmd_step_returns E args last_action a1
              (world_after E (service_step args last_action) w0)) as [a2 H2].
  destruct (kill_step_returns E args p last_action a2
              (world_after E (start_cmd_step args last_action a1)
                 (world_after E (service_step args last_action) w0))) as [a3 H3].
  exists a1, a2, a3; cbn zeta.
  repeat (split; [assumption|]).
  rewrite handle_trip_steps, run_perform_bindM.
  fold trigger; subst w0.
  destruct (respond E trigger w) as [[] w0]; cbn [snd] in *.
  rewrite run_bindM, H1; cbv beta.
  rewrite (result_bindM E _ _ _ a2 H2), (world_bindM E _ _ _ a2 H2),
    (trace_bindM E _ _ _ a2 H2); cbv beta.
  rewrite (result_bindM E _ _ _ a3 H3), (world_bindM E _ _ _ a3 H3),
    (trace_bindM E _ _ _ a3 H3); cbv beta.
  reflexivity.
Qed.

(** Lines 110-113: the service restart is called exactly when a service is
    configured and the gate is open. *)
Lemma service_step_exact (args : Args) (last_action : option Q) (w : W) :
  let tr := trace_of E (service_step args last_action) w in
  strategy_actions tr
  = match as_truthy (service args) with
    | Some svc => if gate_open E args last_action w then [ASystemctl svc] else []
    | None => []
    end /\
  result_of E (service_step args last_action) w = inr (systemctl_ok tr) /\
  (systemctl_ok tr = true ->
   exists svc, as_truthy (service args) = Some svc /\
               strategy_actions tr = [ASystemctl svc]) /\
  shell_ok tr = false /\ wait_timed_out tr = false /\ aborted tr = false.
Proof.
  unfold gate_open, trace_of, result_of, service_step, cooldown_open,
    restart_via_systemctl.
  all_runs E; repeat split; intros; try discriminate; eauto.
Qed.

(** Lines 114-117: the start command is called exactly when nothing has
    succeeded yet, a start command is configured and the gate is open. *)
Lemma start_cmd_step_exact (args : Args) (last_action : option Q) (a : bool) (w : W) :
  let tr := trace_of E (start_cmd_step args last_action a) w in
  strategy_actions tr
  = (if a then []
     else match as_truthy (start_cmd args) with
          | Some cmd => if gate_open E args last_action w then [AShell cmd] else []
          | None => []
          end) /\
  result_of E (start_cmd_step args last_action a) w = inr (a || shell_ok tr) /\
  (shell_ok tr = true ->
   a = false /\
   exists cmd, as_truthy (start_cmd args) = Some cmd /\
               strategy_actions tr = [AShell cmd]) /\
  systemctl_ok tr = false /\ wait_timed_out tr = false /\ aborted tr = false.
Proof.
  unfold gate_open, trace_of, result_of, start_cmd_step, cooldown_open,
    restart_via_command.
  destruct a; all_runs E; repeat split; intros; try discriminate; eauto.
Qed.

(** Lines 118-121: terminate-and-restart is called exactly when nothing has
    succeeded yet and the gate is open. *)
Lemma kill_step_exact (args : Args) (p : proc) (last_action : option Q)
    (a : bool) (w : W) :
  let tr := trace_of E (kill_step args p last_action a) w in
  let plan := kill_and_start_plan p (start_cmd args) (wait_timed_out tr) in
  systemctl_ok tr = false /\ shell_ok tr = false /\
  if a || negb (gate_open E args last_action w)
  then strategy_actions tr = [] /\ wait_timed_out tr = false /\ aborted tr = false
  else (exists n, (1 <= n)%nat /\ strategy_actions tr = firstn n plan) /\
       (aborted tr = false -> strategy_actions tr = plan).
Proof.
  unfold gate_open, trace_of, result_of, kill_step, cooldown_open, kill_and_start,
    kill_and_start_plan.
  destruct a; all_runs E;
    (split; [reflexivity|]; split; [reflexivity|];
     first
       [ repeat split; reflexivity
       | split;
         [ first [ exists 1%nat; split; [lia | reflexivity]
                 | exists 2%nat; split; [lia | reflexivity]
                 | exists 3%nat; split; [lia | reflexivity]
                 | exists 4%nat; split; [lia | reflexivity]
                 | exists 5%nat; split; [lia | reflexivity] ]
         | intro Hab; first [reflexivity | discriminate Hab] ] ]).
Qed.

Lemma finish_trip_facts (args : Args) (p : proc) (mem_mb cpu : Q) (w : W) :
  let tr := trace_of E (finish_trip requests_installed args p mem_mb cpu) w in
  strategy_events tr = [] /\ strategy_actions tr = [] /\ systemctl_ok tr = false /\
  shell_ok tr = false /\ wait_timed_out tr = false.
Proof.
  unfold trace_of, finish_trip, notify_webhook.
  destruct requests_installed; all_runs E; repeat split; reflexivity.
Qed.

Lemma finish_trip_aborted (args : Args) (p : proc) (mem_mb cpu : Q) (w : W) :
  aborted (trace_of E (finish_trip requests_installed args p mem_mb cpu) w) = false.
Proof.
  unfold trace_of, finish_trip, notify_webhook.
  destruct requests_installed; all_runs E; reflexivity.
Qed.

Lemma finish_start_facts (args : Args) (w : W) :
  let tr := trace_of E (finish_start requests_installed args) w in
  strategy_events tr = [] /\ strategy_actions tr = [] /\ shell_ok tr = false.
Proof.
  unfold trace_of, finish_start, notify_webhook.
  destruct requests_installed; all_runs E; repeat split; reflexivity.
Qed.

(** How a trip ends (lines 122-123), whatever came before. *)
Lemma handle_trip_ends (args : Args) (p : proc) (mem_mb cpu : Q)
    (last_action : option Q) (w : W) :
  exists before w0 now w1 t w3,
    let note := notify_webhook requests_installed (webhook args)
                  (MsgRestarted (name args) (proc_pid p) now mem_mb cpu) in
    let w2 := world_after E note w1 in
    respond E datetime_now w0 = (now, w1) /\
    respond E time_time w2 = (t, w3) /\
    run E (handle_trip requests_installed args p mem_mb cpu last_action) w =
    (inr (Some t), w3,
     (before ++ Ev (clock E w0) datetime_now now :: trace_of E note w1
      ++ [Ev (clock E w2) time_time t])%list).
Proof.
  destruct (handle_trip_run args p mem_mb cpu last_action w)
    as (a1 & a2 & a3 & H1 & H2 & H3 & Hrun).
  set (w0 := snd (respond E _ w)) in *.
  set (w1 := world_after E (service_step args last_action) w0) in *.
  set (w2 := world_after E (start_cmd_step args last_action a1) w1) in *.
  set (w3 := world_after E (kill_step args p last_action a2) w2) in *.
  destruct (respond E datetime_now w3) as [now w4] eqn:Hnow.
  pose (note := notify_webhook requests_installed (webhook args)
                  (MsgRestarted (name args) (proc_pid p) now mem_mb cpu)).
  destruct (respond E time_time (world_after E note w4)) as [t w6] eqn:Ht.
  pose proof (finish_trip_run args p mem_mb cpu w3 w4 w6 now t Hnow Ht) as Hfin.
  rewrite (run_parts E (finish_trip requests_installed args p mem_mb cpu) w3) in Hfin.
  inversion Hfin as [[Hr Hw Htr]]; clear Hfin.
  rewrite Hrun, Hr, Hw, Htr.
  exists (Ev (clock E w)
            (logging_log LvlWarning "Триггер для PID %s: mem=%.1fMB cpu=%.1f%%") tt
          :: trace_of E (service_step args last_action) w0
             ++ trace_of E (start_cmd_step args last_action a1) w1
             ++ trace_of E (kill_step args p last_action a2) w2)%list,
    w3, now, w4, t, w6.
  cbv zeta; fold note.
  split; [exact Hnow|]; split; [exact Ht|].
  f_equal; cbn [app]; f_equal.
  rewrite <- !app_assoc; reflexivity.
Qed.

(** The run of the branch taken when no process was found. *)
Lemma not_found_run (args : Args) (last_action : option Q) (w : W) :
  let warning := logging_log LvlWarning "Процесс не найден: %s" in
  let info := logging_log LvlInfo "Попытка старта: %s, %s" in
  let w0 := snd (respond E warning w) in
  let gate := cooldown_open args last_action in
  let wg := world_after E gate w0 in
  run E (not_found requests_installed args last_action) w =
  match as_truthy (start_cmd args) with
  | None => (inr last_action, w0, [Ev (clock E w) warning tt])
  | Some cmd =>
      match result_of E gate w0 with
      | inr true =>
          let r := fst (respond E (run_shell cmd) wg) in
          let w1 := snd (respond E (run_shell cmd) wg) in
          let w2 := snd (respond E info w1) in
          let attempted :=
            (Ev (clock E w) warning tt :: trace_of E gate w0
             ++ [Ev (clock E wg) (run_shell cmd) r; Ev (clock E w1) info tt])%list in
          match r with
          | inr _ =>
              let fin := finish_start requests_installed args in
              (result_of E fin w2, world_after E fin w2,
               (attempted ++ trace_of E fin w2)%list)
          | inl _ => (inr last_action, w2, attempted)
          end
      | _ => (inr last_action, wg, Ev (clock E w) warning tt :: trace_of E gate w0)
      end
  end.
Proof.
  intros warning info w0 gate wg.
  subst wg gate w0 info warning.
  unfold result_of, world_after, trace_of, not_found, cooldown_open,
    restart_via_command, finish_start, notify_webhook.
  destruct requests_installed; all_runs E; merge_calls; reflexivity.
Qed.

(** While the clock readings of a step stay within the cooldown, the step
    calls no strategy. *)
Section Closed_gate.

Variables (args : Args) (u : Q).
Hypothesis Hset : truthy_num (Some u) = true.

Lemma closed_service_step (w : W) :
  within_cooldown (cooldown args) u (trace_of E (service_step args (Some u)) w) ->
  strategy_events (trace_of E (service_step args (Some u)) w) = [].
Proof.
  unfold within_cooldown, trace_of, service_step, cooldown_open, restart_via_systemctl.
  rewrite Hset; cbn [negb].
  all_runs E; intro Hc; try reflexivity;
    specialize (Hc _ (or_introl eq_refl)); congruence.
Qed.

Lemma closed_start_cmd_step (a : bool) (w : W) :
  within_cooldown (cooldown args) u (trace_of E (start_cmd_step args (Some u) a) w) ->
  strategy_events (trace_of E (start_cmd_step args (Some u) a) w) = [].
Proof.
  unfold within_cooldown, trace_of, start_cmd_step, cooldown_open, restart_via_command.
  rewrite Hset; cbn [negb].
  destruct a; all_runs E; intro Hc; try reflexivity;
    specialize (Hc _ (or_introl eq_refl)); congruence.
Qed.

Lemma closed_kill_step (p : proc) (a : bool) (w : W) :
  within_cooldown (cooldown args) u (trace_of E (kill_step args p (Some u) a) w) ->
  strategy_events (trace_of E (kill_step args p (Some u) a) w) = [].
Proof.
  unfold within_cooldown, trace_of, kill_step, cooldown_open, kill_and_start.
  rewrite Hset; cbn [negb].
  destruct a; all_runs E; intro Hc; try reflexivity;
    specialize (Hc _ (or_introl eq_refl)); congruence.
Qed.

Lemma clock_readings_app (a b : list event) :
  clock_readings (a ++ b) = (clock_readings a ++ clock_readings b)%list.
Proof.
  induction a as [|e a IH]; [reflexivity|].
  cbn [app clock_readings]; destruct (reading e); rewrite IH; reflexivity.
Qed.

Lemma closed_gate_dispatches_nothing (p : proc) (mem_mb cpu : Q) (w : W) :
  within_cooldown (cooldown args) u (trace_of E (handle_trip requests_installed args p mem_mb cpu (Some u)) w) ->
  strategy_events
    (trace_of E (handle_trip requests_installed args p mem_mb cpu (Some u)) w) = [].
Proof.
  destruct (handle_trip_run args p mem_mb cpu (Some u) w)
    as (a1 & a2 & a3 & _ & _ & _ & Hrun).
  unfold trace_of at 1 2; rewrite Hrun; cbn [snd].
  intro Hc.
  change (strategy_events (?e :: ?l)) with (strategy_events l).
  assert (Hc' : within_cooldown (cooldown args) u (trace_of E (service_step args (Some u))
                          (snd (respond E (logging_log LvlWarning
                             "Триггер для PID %s: mem=%.1fMB cpu=%.1f%%") w))
                        ++ trace_of E (start_cmd_step args (Some u) a1) _
                        ++ trace_of E (kill_step args p (Some u) a2) _
                        ++ trace_of E (finish_trip requests_installed args p mem_mb cpu) _))
    by exact Hc.
  clear Hc; unfold within_cooldown in Hc'.
  rewrite !strategy_events_app, closed_service_step, closed_start_cmd_step,
    closed_kill_step.
  - apply finish_trip_facts.
  - intros now Hin; apply Hc'; rewrite !clock_readings_app, !in_app_iff; auto.
  - intros now Hin; apply Hc'; rewrite !clock_readings_app, !in_app_iff; auto.
  - intros now Hin; apply Hc'; rewrite !clock_readings_app, !in_app_iff; auto.
Qed.

End Closed_gate.

End Escalation.

(** ** Clocks *)

Section Clocks.

Context {W : Type} (E : env W).
Hypothesis Hlaw : lawful E.

Lemma run_clock {A : Type} (m : prog A) (w : W) :
  clock E w <= clock E (world_after E m w) /\
  forall e, In e (trace_of E m w) ->
            clock E w <= event_time e /\
            event_time e <= clock E (world_after E m w).
Proof.
  revert w; induction m as [a | R c k IH]; intro w.
  - split; [apply Qle_refl | intros e []].
  - unfold world_after, trace_of; cbn [run].
    pose proof (clock_mono E Hlaw R c w) as Hstep.
    destruct (respond E c w) as [r w1]; cbn [snd] in Hstep.
    specialize (IH r w1); unfold world_after, trace_of in IH.
    destruct (run E (k r) w1) as [[a w2] tr]; cbn [fst snd] in *.
    destruct IH as [Hw Hev].
    split; [eapply Qle_trans; eassumption|].
    intros e [<- | He]; cbn [event_time].
    + split; [apply Qle_refl | eapply Qle_trans; eassumption].
    + destruct (Hev e He) as [H1 H2].
      split; [eapply Qle_trans; eassumption | exact H2].
Qed.

Lemma world_clock_mono {A : Type} (m : prog A) (w : W) :
  clock E w <= clock E (world_after E m w).
Proof. apply run_clock. Qed.

Lemma trace_nondecreasing {A : Type} (m : prog A) (w : W)
    (tr1 tr2 : list event) (e : event) :
  trace_of E m w = (tr1 ++ e :: tr2)%list ->
  forall e1, In e1 tr1 -> event_time e1 <= event_time e.
Proof.
  revert w tr1; induction m as [a | R c k IH]; intros w tr1.
  - unfold trace_of; cbn; intro H; destruct tr1; discriminate.
  - unfold trace_of; cbn [run].
    pose proof (clock_mono E Hlaw R c w) as Hstep.
    destruct (respond E c w) as [r w1]; cbn [snd] in Hstep.
    pose proof (run_clock (k r) w1) as [_ Hev].
    specialize (IH r w1); unfold trace_of in IH, Hev.
    destruct (run E (k r) w1) as [[a w2] tr]; cbn [fst snd] in *.
    intros Heq e1 He1.
    destruct tr1 as [|e0 tr1]; [destruct He1|].
    cbn [app] in Heq; inversion Heq as [[He0 Htr]].
    destruct He1 as [<- | He1].
    + rewrite <- He0; cbn [event_time].
      eapply Qle_trans; [exact Hstep|].
      apply Hev; rewrite Htr; apply in_or_app; right; left; reflexivity.
    + eapply IH; eassumption.
Qed.

Lemma in_dispatch_times (tr : list event) (t : Q) :
  In t (dispatch_times tr) <->
  exists e, In e tr /\ is_strategy_event e = true /\ event_time e = t.
Proof.
  unfold dispatch_times, strategy_events; rewrite in_map_iff.
  split.
  - intros (e & Ht & He); apply filter_In in He; destruct He; eauto.
  - intros (e & He & Hs & Ht); exists e; split; [exact Ht|].
    apply filter_In; split; assumption.
Qed.

Lemma quiet_no_dispatch {A : Type} (m : prog A) (w : W) :
  quiet E m -> dispatch_times (trace_of E m w) = [].
Proof. intro H; unfold dispatch_times; rewrite H; reflexivity. Qed.

Lemma gated_quiet {A : Type} (c : Z) (u : Q) (m : prog A) :
  quiet E m -> gated E c u m.
Proof.
  intros Hq w _ t Ht; rewrite (quiet_no_dispatch m w Hq) in Ht; destruct Ht.
Qed.

Lemma gated_bind {A B : Type} (c : Z) (u : Q) (m : prog A) (f : A -> prog B) :
  gated E c u m -> (forall a, gated E c u (f a)) -> gated E c u (bind m f).
Proof.
  intros Hm Hf w Hu t Ht.
  rewrite trace_bind, dispatch_times_app in Ht.
  apply in_app_or in Ht; destruct Ht as [Ht | Ht].
  - exact (Hm w Hu t Ht).
  - refine (Hf _ _ _ t Ht).
    eapply Qle_trans; [exact Hu | apply world_clock_mono].
Qed.

Lemma gated_ret {A : Type} (c : Z) (u : Q) (a : A) : gated E c u (Ret a).
Proof. intros w _ t Ht; destruct Ht. Qed.

Lemma gated_bindM {A B : Type} (c : Z) (u : Q) (m : M A) (f : A -> M B) :
  gated E c u m -> (forall a, gated E c u (f a)) -> gated E c u (bindM m f).
Proof.
  intros Hm Hf; apply gated_bind; [exact Hm|].
  intros [e | a]; [apply gated_ret | apply Hf].
Qed.

Lemma truthy_positive (u : Q) : 0 < u -> truthy_num (Some u) = true.
Proof.
  intro Hu; apply truthy_num_spec; exists u; split; [reflexivity|].
  intro H; rewrite H in Hu; apply (Qlt_irrefl 0); exact Hu.
Qed.

(** What the gate lets through is later than [u + cooldown]. *)
Lemma gated_guard {A : Type} (args : Args) (u : Q) (m : M A) (otherwise : M A) :
  0 < u ->
  quiet E otherwise ->
  gated E (cooldown args) u
    (open <- cooldown_open args (Some u) ;; if open then m else otherwise).
Proof.
  intros Hpos Hq w _ t Ht.
  destruct (cooldown_open_returns E args (Some u) w) as [b Hb].
  rewrite (trace_bindM E _ _ w b Hb), dispatch_times_app in Ht.
  revert Hb Ht.
  unfold result_of, world_after, trace_of; rewrite cooldown_open_run.
  rewrite (truthy_positive u Hpos); cbn [negb].
  pose proof (clock_read E Hlaw w) as Hread.
  pose proof (clock_mono E Hlaw _ time_time w) as Hstep.
  destruct (respond E time_time w) as [now w1]; cbn [fst snd] in *.
  intros Hb Ht; inversion Hb as [Hgate]; clear Hb.
  cbn [dispatch_times strategy_events filter is_strategy_event is_strategy_call
       map app] in Ht.
  destruct b.
  - apply Qltb_lt in Hgate.
    apply in_dispatch_times in Ht; destruct Ht as (e & He & _ & <-).
    pose proof (run_clock m w1) as [_ Hev].
    destruct (Hev e He) as [Hlo _].
    subst now.
    assert (Hle : clock E w <= event_time e) by (eapply Qle_trans; eassumption).
    lra.
  - change (In t (dispatch_times (trace_of E otherwise w1))) in Ht.
    rewrite (quiet_no_dispatch otherwise w1 Hq) in Ht; destruct Ht.
Qed.

Lemma quiet_ret {A : Type} (a : A) : quiet E (Ret a).
Proof. intro w; reflexivity. Qed.

Lemma trace_reads_clock {A : Type} (m : prog A) (w : W) :
  forall e, In e (trace_of E m w) -> reads_clock e.
Proof.
  revert w; induction m as [a | R c k IH]; intro w.
  - intros e [].
  - unfold trace_of; cbn [run].
    pose proof (clock_read E Hlaw w) as Hread.
    destruct (respond E c w) as [r w1] eqn:Hc.
    specialize (IH r w1); unfold trace_of in IH.
    destruct (run E (k r) w1) as [[a w2] tr]; cbn [fst snd] in *.
    intros e [<- | He]; [|exact (IH e He)].
    destruct c; cbn; try exact I.
    rewrite Hc in Hread; exact Hread.
Qed.

(** A run that ends by reading the clock ends at the time it read. *)
Lemma last_reading {A : Type} (m : prog A) (w : W) (pre : list event) (t' t : Q) :
  trace_of E m w = (pre ++ [Ev t' time_time t])%list ->
  t' = t /\
  clock E w <= t /\ t <= clock E (world_after E m w) /\
  forall e, In e (trace_of E m w) -> event_time e <= t.
Proof.
  intro Htr.
  assert (Hin : In (Ev t' time_time t) (trace_of E m w))
    by (rewrite Htr; apply in_or_app; right; left; reflexivity).
  pose proof (trace_reads_clock m w _ Hin) as Hread; cbn in Hread; subst t'.
  destruct (run_clock m w) as [_ Hev].
  destruct (Hev _ Hin) as [Hlo Hhi]; cbn [event_time] in Hlo, Hhi.
  repeat split; [exact Hlo | exact Hhi |].
  intros e He; rewrite Htr in He.
  apply in_app_or in He; destruct He as [He | [<- | []]].
  - exact (trace_nondecreasing m w _ _ _ Htr e He).
  - apply Qle_refl.
Qed.

End Clocks.

(** ** The gate along a run *)

Section Gate.

Context {W : Type} (E : env W).
Hypothesis Hlaw : lawful E.
Variable requests_installed : bool.
Variable dunder_name : string.

Lemma quiet_perform_log (lvl : level) (fmt : string) :
  quiet E (perform (logging_log lvl fmt)).
Proof.
  intro w; unfold trace_of; rewrite run_perform; reflexivity.
Qed.

Lemma quiet_finish_trip (args : Args) (p : proc) (mem_mb cpu : Q) :
  quiet E (finish_trip requests_installed args p mem_mb cpu).
Proof. intro w; apply finish_trip_facts. Qed.

Lemma quiet_finish_start (args : Args) :
  quiet E (finish_start requests_installed args).
Proof. intro w; apply finish_start_facts. Qed.

Lemma quiet_resolve (args : Args) : quiet E (resolve args).
Proof.
  intro w; unfold trace_of, resolve, find_processes_by_name.
  all_runs E; reflexivity.
Qed.

Lemma gated_service_step (args : Args) (u : Q) :
  0 < u -> gated E (cooldown args) u (service_step args (Some u)).
Proof.
  intro Hpos; unfold service_step.
  destruct (as_truthy (service args)); [|apply gated_ret].
  apply (gated_guard E Hlaw); [exact Hpos | apply quiet_ret].
Qed.

Lemma gated_start_cmd_step (args : Args) (u : Q) (a : bool) :
  0 < u -> gated E (cooldown args) u (start_cmd_step args (Some u) a).
Proof.
  intro Hpos; unfold start_cmd_step.
  destruct (negb a); [|apply gated_ret].
  destruct (as_truthy (start_cmd args)); [|apply gated_ret].
  apply (gated_guard E Hlaw); [exact Hpos | apply quiet_ret].
Qed.

Lemma gated_kill_step (args : Args) (p : proc) (u : Q) (a : bool) :
  0 < u -> gated E (cooldown args) u (kill_step args p (Some u) a).
Proof.
  intro Hpos; unfold kill_step.
  destruct (negb a); [|apply gated_ret].
  apply (gated_guard E Hlaw); [exact Hpos | apply quiet_ret].
Qed.

Lemma gated_handle_trip (args : Args) (p : proc) (mem_mb cpu u : Q) :
  0 < u ->
  gated E (cooldown args) u
    (handle_trip requests_installed args p mem_mb cpu (Some u)).
Proof.
  intro Hpos; rewrite handle_trip_steps.
  apply (gated_bindM E Hlaw); [apply gated_quiet, quiet_perform_log | intros _].
  apply (gated_bindM E Hlaw); [apply gated_service_step, Hpos | intro a1].
  apply (gated_bindM E Hlaw); [apply gated_start_cmd_step, Hpos | intro a2].
  apply (gated_bindM E Hlaw); [apply gated_kill_step, Hpos | intros _].
  apply gated_quiet, quiet_finish_trip.
Qed.

(** A trip leaves the reading of the clock taken after all its calls. *)
Lemma handle_trip_stamp (args : Args) (p : proc) (mem_mb cpu : Q)
    (last_action : option Q) (w : W) :
  let m := handle_trip requests_installed args p mem_mb cpu last_action in
  exists t,
    result_of E m w = inr (Some t) /\
    clock E w <= t /\ t <= clock E (world_after E m w) /\
    forall e, In e (trace_of E m w) -> event_time e <= t.
Proof.
  intro m.
  destruct (handle_trip_ends E requests_installed args p mem_mb cpu last_action w)
    as (before & w0 & now & w1 & t & w3 & Hnow & Ht & Hrun).
  cbv zeta in Ht, Hrun.
  set (note := notify_webhook requests_installed (webhook args)
                 (MsgRestarted (name args) (proc_pid p) now mem_mb cpu)) in *.
  set (w2 := world_after E note w1) in *.
  fold m in Hrun.
  assert (Hread : t = clock E w2).
  { pose proof (clock_read E Hlaw w2) as H; rewrite Ht in H; exact H. }
  assert (Htr : trace_of E m w
                = ((before ++ Ev (clock E w0) datetime_now now :: trace_of E note w1)
                   ++ Ev (clock E w2) time_time t :: [])%list).
  { unfold trace_of at 1; rewrite Hrun; cbn [snd].
    rewrite <- app_assoc; reflexivity. }
  exists t.
  split; [unfold result_of; rewrite Hrun; reflexivity|].
  destruct (run_clock E Hlaw m w) as [_ Hev].
  assert (Hin : In (Ev (clock E w2) time_time t) (trace_of E m w))
    by (rewrite Htr; apply in_or_app; right; left; reflexivity).
  destruct (Hev _ Hin) as [Hlo Hhi]; cbn [event_time] in Hlo, Hhi.
  rewrite Hread.
  repeat split; [exact Hlo | exact Hhi |].
  intros e He; rewrite Htr in He.
  apply in_app_or in He; destruct He as [He | [<- | []]].
  - exact (trace_nondecreasing E Hlaw m w _ _ _ Htr e He).
  - apply Qle_refl.
Qed.

Lemma respects_handle_trip (args : Args) (p : proc) (mem_mb cpu u : Q) :
  0 < u ->
  respects E (cooldown args) u
    (handle_trip requests_installed args p mem_mb cpu (Some u)).
Proof.
  intros Hpos w Hu; split.
  - exact (gated_handle_trip args p mem_mb cpu u Hpos w Hu).
  - intros L HL.
    destruct (handle_trip_stamp args p mem_mb cpu (Some u) w)
      as (t & Hr & Hlo & Hhi & _).
    rewrite Hr in HL; inversion HL; subst L.
    exists t; repeat split; [eapply Qle_trans; eassumption | exact Hhi].
Qed.

Lemma respects_ret (c : Z) (u : Q) : respects E c u (ret (Some u)).
Proof.
  intros w Hu; split; [intros t []|].
  intros L HL; inversion HL; subst L.
  exists u; repeat split; [apply Qle_refl | exact Hu].
Qed.

Lemma respects_quiet_bindM {A : Type} (c : Z) (u : Q) (m : M A)
    (f : A -> M (option Q)) :
  quiet E m -> (forall a, respects E c u (f a)) -> respects E c u (bindM m f).
Proof.
  intros Hq Hf w Hu.
  assert (Hw1 : u <= clock E (world_after E m w))
    by (eapply Qle_trans; [exact Hu | apply (world_clock_mono E Hlaw)]).
  unfold result_of, world_after, trace_of; rewrite run_bindM.
  destruct (result_of E m w) as [e | a]; cbn [fst snd].
  - split; [|discriminate].
    intros t Ht; rewrite (quiet_no_dispatch E m w Hq) in Ht; destruct Ht.
  - destruct (Hf a _ Hw1) as [Hd Hr]; split.
    + intros t Ht; rewrite dispatch_times_app in Ht.
      apply in_app_or in Ht; destruct Ht as [Ht | Ht]; [|exact (Hd t Ht)].
      rewrite (quiet_no_dispatch E m w Hq) in Ht; destruct Ht.
    + exact Hr.
Qed.

Lemma respects_weaken (c : Z) (u u' : Q) (m : M (option Q)) :
  u <= u' -> respects E c u' m ->
  forall w, u' <= clock E w ->
  (forall t, In t (dispatch_times (trace_of E m w)) -> inject_Z c < t - u) /\
  (forall L, result_of E m w = inr L ->
             exists u'', L = Some u'' /\ u <= u'' /\
                         u'' <= clock E (world_after E m w)).
Proof.
  intros Hle Hm w Hu'; destruct (Hm w Hu') as [Hd Hr]; split.
  - intros t Ht; specialize (Hd t Ht); lra.
  - intros L HL; destruct (Hr L HL) as (u'' & -> & H1 & H2).
    exists u''; repeat split; [eapply Qle_trans; eassumption | exact H2].
Qed.

Lemma respects_then (c : Z) (u : Q) (m : M (option Q))
    (f : option Q -> M (option Q)) :
  respects E c u m ->
  (forall u', u <= u' -> respects E c u' (f (Some u'))) ->
  respects E c u (bindM m f).
Proof.
  intros Hm Hf w Hu.
  destruct (Hm w Hu) as [Hd Hr].
  unfold result_of, world_after, trace_of; rewrite run_bindM.
  destruct (result_of E m w) as [e | L] eqn:HL; cbn [fst snd].
  - split; [exact Hd | discriminate].
  - destruct (Hr L eq_refl) as (u' & -> & Hle & Hclock).
    destruct (respects_weaken c u u' _ Hle (Hf u' Hle) _ Hclock) as [Hd' Hr'].
    split; [|exact Hr'].
    intros t Ht; rewrite dispatch_times_app in Ht.
    apply in_app_or in Ht; destruct Ht as [Ht | Ht]; [exact (Hd t Ht) | exact (Hd' t Ht)].
Qed.

Lemma respects_try_except (c : Z) (u : Q) (body : M (option Q))
    (catches : exn -> bool) (handler : exn -> M (option Q)) :
  respects E c u body ->
  (forall e, respects E c u (handler e)) ->
  respects E c u (try_except body catches handler).
Proof.
  intros Hb Hh w Hu.
  destruct (Hb w Hu) as [Hd Hr].
  assert (Hw1 : u <= clock E (world_after E body w))
    by (eapply Qle_trans; [exact Hu | apply (world_clock_mono E Hlaw)]).
  unfold result_of, world_after, trace_of in *; rewrite run_try_except.
  unfold result_of, world_after, trace_of.
  destruct (fst (fst (run E body w))) as [e | L] eqn:HL.
  - destruct (catches e); cbn [fst snd]; [|split; [exact Hd | discriminate]].
    destruct (Hh e _ Hw1) as [Hd' Hr'].
    unfold result_of, world_after, trace_of in Hd', Hr'.
    split; [|exact Hr'].
    intros t Ht; rewrite dispatch_times_app in Ht.
    apply in_app_or in Ht; destruct Ht as [Ht | Ht]; [exact (Hd t Ht) | exact (Hd' t Ht)].
  - cbn [fst snd]; split; [exact Hd|].
    intros L' HL'; inversion HL'; subst L'; exact (Hr L eq_refl).
Qed.

Lemma cooldown_open_facts (args : Args) (last_action : option Q) (w : W) :
  let tr := trace_of E (cooldown_open args last_action) w in
  strategy_events tr = [] /\ shell_ok tr = false /\ strategy_actions tr = [].
Proof.
  unfold trace_of; rewrite cooldown_open_run.
  destruct (negb (truthy_num last_action)); [repeat split; reflexivity|].
  destruct (respond E time_time w); repeat split; reflexivity.
Qed.

(** A not-found pass either keeps [last_action], or made a start that
    succeeded and leaves the reading of the clock taken after it. *)
Lemma not_found_stamp (args : Args) (last_action : option Q) (w : W) :
  let m := not_found requests_installed args last_action in
  (result_of E m w = inr last_action /\ shell_ok (trace_of E m w) = false) \/
  (exists t,
      result_of E m w = inr (Some t) /\
      clock E w <= t /\ t <= clock E (world_after E m w) /\
      (forall e, In e (trace_of E m w) -> event_time e <= t) /\
      shell_ok (trace_of E m w) = true).
Proof.
  intro m.
  pose proof (not_found_run E requests_installed args last_action w) as Hrun.
  cbv zeta in Hrun; fold m in Hrun.
  set (warning := logging_log LvlWarning "Процесс не найден: %s") in *.
  set (info := logging_log LvlInfo "Попытка старта: %s, %s") in *.
  set (w0 := snd (respond E warning w)) in *.
  set (gate := cooldown_open args last_action) in *.
  set (wg := world_after E gate w0) in *.
  destruct (cooldown_open_facts args last_action w0) as (_ & Hgs & _).
  fold gate in Hgs; cbv zeta in Hgs.
  assert (Hno : shell_ok (Ev (clock E w) warning tt :: trace_of E gate w0) = false)
    by exact Hgs.
  destruct (as_truthy (start_cmd args)) as [cmd|].
  2:{ left; unfold result_of, trace_of; rewrite Hrun; split; reflexivity. }
  destruct (result_of E gate w0) as [e | [|]].
  1,3: left; unfold result_of, trace_of; rewrite Hrun; split; [reflexivity | exact Hno].
  set (w1 := snd (respond E (run_shell cmd) wg)) in *.
  set (w2 := snd (respond E info w1)) in *.
  destruct (fst (respond E (run_shell cmd) wg)) as [e | u].
  - left; unfold result_of, trace_of; rewrite Hrun; cbn [fst snd]; split; [reflexivity|].
    change (shell_ok (Ev (clock E w) warning tt :: trace_of E gate w0
                      ++ [Ev (clock E wg) (run_shell cmd) (inl e);
                          Ev (clock E w1) info tt])%list)
      with (shell_ok (trace_of E gate w0
                      ++ [Ev (clock E wg) (run_shell cmd) (inl e);
                          Ev (clock E w1) info tt])%list).
    rewrite shell_ok_app, Hgs; reflexivity.
  - right.
    destruct (respond E datetime_now w2) as [now w3] eqn:Hnow.
    set (note := notify_webhook requests_installed (webhook args)
                   (MsgStarted (name args) now)) in *.
    destruct (respond E time_time (world_after E note w3)) as [t w5] eqn:Ht.
    pose proof (finish_start_run E requests_installed args w2 w3 w5 now t Hnow Ht)
      as Hfin.
    rewrite (run_parts E (finish_start requests_installed args) w2) in Hfin.
    inversion Hfin as [[Hr Hw Htr]]; clear Hfin.
    rewrite Hr, Hw, Htr in Hrun.
    fold note in Hrun.
    assert (Htrace : trace_of E m w
              = (((Ev (clock E w) warning tt :: trace_of E gate w0
                  ++ [Ev (clock E wg) (run_shell cmd) (inr u); Ev (clock E w1) info tt])
                 ++ Ev (clock E w2) datetime_now now :: trace_of E note w3)
                ++ [Ev (clock E (world_after E note w3)) time_time t])%list).
    { unfold trace_of at 1; rewrite Hrun; cbn [snd].
      rewrite <- !app_assoc; reflexivity. }
    destruct (last_reading E Hlaw m w _ _ _ Htrace) as (_ & Hlo & Hhi & Hall).
    exists t; split; [unfold result_of; rewrite Hrun; reflexivity|].
    repeat split; try assumption.
    rewrite Htrace, !shell_ok_app.
    change (shell_ok (Ev (clock E w) warning tt :: trace_of E gate w0
                      ++ [Ev (clock E wg) (run_shell cmd) (inr u);
                          Ev (clock E w1) info tt])%list)
      with (shell_ok (trace_of E gate w0
                      ++ [Ev (clock E wg) (run_shell cmd) (inr u);
                          Ev (clock E w1) info tt])%list).
    rewrite shell_ok_app, Hgs; reflexivity.
Qed.

Lemma gated_not_found (args : Args) (u : Q) :
  0 < u ->
  gated E (cooldown args) u (not_found requests_installed args (Some u)).
Proof.
  intro Hpos; unfold not_found.
  apply (gated_bindM E Hlaw); [apply gated_quiet, quiet_perform_log | intros _].
  destruct (as_truthy (start_cmd args)); [|apply gated_ret].
  apply (gated_guard E Hlaw); [exact Hpos | apply quiet_ret].
Qed.

Lemma respects_not_found (args : Args) (u : Q) :
  0 < u ->
  respects E (cooldown args) u (not_found requests_installed args (Some u)).
Proof.
  intros Hpos w Hu; split.
  - exact (gated_not_found args u Hpos w Hu).
  - intros L HL.
    destruct (not_found_stamp args (Some u) w)
      as [(Hr & _) | (t & Hr & Hlo & Hhi & _)];
      rewrite Hr in HL; inversion HL; subst L.
    + exists u; repeat split; [apply Qle_refl|].
      eapply Qle_trans; [exact Hu | apply (world_clock_mono E Hlaw)].
    + exists t; repeat split; [eapply Qle_trans; eassumption | exact Hhi].
Qed.

Lemma quiet_attempt_sample {R : Type} (c : call (exn + R)) :
  is_strategy_call c = false -> quiet E (attempt c).
Proof.
  intros Hc w; unfold trace_of, attempt; cbn.
  destruct (respond E c w) as [r w1]; cbn.
  unfold strategy_events; cbn; rewrite Hc; reflexivity.
Qed.

Lemma respects_check_proc (args : Args) (p : proc) (u : Q) :
  0 < u ->
  respects E (cooldown args) u (check_proc requests_installed args p (Some u)).
Proof.
  intro Hpos; unfold check_proc.
  apply respects_try_except; [|intros _; apply respects_ret].
  apply respects_quiet_bindM; [apply quiet_attempt_sample; reflexivity | intro rss].
  apply respects_quiet_bindM; [apply quiet_attempt_sample; reflexivity | intro cpu].
  apply respects_quiet_bindM; [apply quiet_perform_log | intros _].
  destruct (trips args _ cpu); [apply respects_handle_trip, Hpos | apply respects_ret].
Qed.

Lemma respects_check_procs (args : Args) (procs : list proc) (u : Q) :
  0 < u ->
  respects E (cooldown args) u (check_procs requests_installed args procs (Some u)).
Proof.
  revert u; induction procs as [|p rest IH]; intros u Hpos; cbn [check_procs].
  - apply respects_ret.
  - apply respects_then; [apply respects_check_proc, Hpos|].
    intros u' Hle; apply IH; lra.
Qed.

Lemma respects_tick (args : Args) (u : Q) :
  0 < u ->
  respects E (cooldown args) u (tick requests_installed args (Some u)).
Proof.
  intro Hpos; unfold tick.
  apply respects_quiet_bindM; [apply quiet_resolve | intros [|p rest]].
  - apply respects_not_found, Hpos.
  - apply respects_check_procs, Hpos.
Qed.

(** After a pass that respects the gate, the loop goes on with the timestamp
    the pass left, provided the module is not the main module (else line 143
    starts [main] afresh, with no timestamp). *)
Lemma gated_after_tick (args : Args) (u : Q) (body : M (option Q))
    (again : option Q -> prog outcome) (enter_main : Args -> prog outcome) :
  dunder_name <> "__main__" ->
  respects E (cooldown args) u body ->
  (forall u', u <= u' -> gated E (cooldown args) u' (again (Some u'))) ->
  gated E (cooldown args) u (after_tick dunder_name args body again enter_main).
Proof.
  intros Hname Hbody Hagain w Hu t Ht.
  destruct (Hbody w Hu) as [Hd Hr].
  unfold after_tick in Ht; rewrite trace_bind, dispatch_times_app in Ht.
  apply in_app_or in Ht; destruct Ht as [Ht | Ht]; [exact (Hd t Ht)|].
  destruct (result_of E body w) as [e | L]; [destruct Ht|].
  destruct (Hr L eq_refl) as (u' & -> & Hle & Hclock).
  apply String.eqb_neq in Hname; rewrite Hname in Ht.
  unfold trace_of in Ht; cbn [run] in Ht.
  pose proof (clock_mono E Hlaw _ (time_sleep (interval args))
                (world_after E body w)) as Hstep.
  destruct (respond E (time_sleep (interval args)) (world_after E body w))
    as [[e | []] w2]; cbn [snd] in Hstep; [destruct Ht|].
  assert (Hw2 : u' <= clock E w2) by (eapply Qle_trans; eassumption).
  pose proof (Hagain u' Hle w2 Hw2) as Hg; unfold trace_of in Hg.
  destruct (run E (again (Some u')) w2) as [[r w3] tr]; cbn [snd] in *.
  specialize (Hg t Ht); lra.
Qed.

Lemma gated_main_loop (fuel : nat) (args : Args) (u : Q) :
  dunder_name <> "__main__" ->
  0 < u ->
  gated E (cooldown args) u
    (main_loop requests_installed dunder_name fuel args (Some u)).
Proof.
  intro Hname; revert u; induction fuel as [|fuel IH]; intros u Hpos; cbn [main_loop].
  - apply gated_ret.
  - apply gated_after_tick; [exact Hname | apply respects_tick, Hpos|].
    intros u' Hle; apply IH; lra.
Qed.

Lemma gated_rest_of_run (fuel : nat) (args : Args) (pending : list proc) (u : Q) :
  dunder_name <> "__main__" ->
  0 < u ->
  gated E (cooldown args) u
    (rest_of_run requests_installed dunder_name fuel args pending (Some u)).
Proof.
  intros Hname Hpos; unfold rest_of_run.
  apply gated_after_tick; [exact Hname | apply respects_check_procs, Hpos|].
  intros u' Hle; apply gated_main_loop; [exact Hname | lra].
Qed.

End Gate.

(** ** The scripted environment is lawful *)

Lemma scripted_lawful (s : scenario) : lawful (scripted s).
Proof.
  split.
  - intro w; reflexivity.
  - intros R c w; destruct c; cbn; try apply Qle_refl.
    + destruct (secs <? 0)%Z eqn:Hs; cbn; [apply Qle_refl|].
      apply Z.ltb_ge in Hs.
      assert (H : 0 <= inject_Z secs)
        by (change 0 with (inject_Z 0); rewrite <- Zle_Qle; exact Hs).
      lra.
    + lra.
    + lra.
Qed.

(** * The claims of the specification *)

Section Strategy_claims.

Context {W : Type} (E : env W).

Local Arguments str : simpl never.

(** C6.  Terminate-and-restart asks the process for its name (for the log),
    sends the graceful termination, waits with a timeout of 10 seconds, kills
    exactly once if and only if that wait timed out, and then launches the
    start command if one is configured: the calls it makes are an initial
    part of that sequence, and the whole of it unless a call of the
    termination sequence failed.  With no start command nothing is launched. *)
Theorem kill_and_start_sequence (p : proc) (start : option string) (w : W) :
  let tr := trace_of E (kill_and_start p start) w in
  let plan := kill_and_start_plan p start (wait_timed_out tr) in
  (exists n, (1 <= n)%nat /\ actions tr = firstn n plan) /\
  (aborted tr = false -> actions tr = plan) /\
  length (filter is_kill (actions tr)) = (if wait_timed_out tr then 1 else 0)%nat /\
  (as_truthy start = None -> filter is_popen (actions tr) = []).
Proof.
  unfold trace_of, kill_and_start, kill_and_start_plan.
  all_runs E;
    (split;
     [ first [ exists 1%nat; split; [lia | reflexivity]
             | exists 2%nat; split; [lia | reflexivity]
             | exists 3%nat; split; [lia | reflexivity]
             | exists 4%nat; split; [lia | reflexivity]
             | exists 5%nat; split; [lia | reflexivity] ]
     | repeat split; try discriminate; eauto ]).
Qed.

(** C7.  No recovery strategy lets an exception escape: each returns a pair,
    and when the underlying call failed the pair is [False] with the text of
    the captured exception; the handling of a trip as a whole returns too, so
    a failed strategy is followed by the next one and the loop goes on. *)
Theorem strategies_never_raise (requests_installed : bool) (w : W) :
  (forall svc,
      exists ok msg,
        result_of E (restart_via_systemctl svc) w = inr (ok, msg) /\
        (forall e, fst (respond E (run_systemctl_restart svc) w) = inl e ->
                   ok = false /\ msg = "systemctl restart failed: " ++ str e)) /\
  (forall cmd,
      exists ok msg,
        result_of E (restart_via_command cmd) w = inr (ok, msg) /\
        (forall e, fst (respond E (run_shell cmd) w) = inl e ->
                   ok = false /\
                   msg = "Команда рестарта `" ++ cmd ++ "` не удалась: " ++ str e)) /\
  (forall p start,
      let tr := trace_of E (kill_and_start p start) w in
      exists ok msg,
        result_of E (kill_and_start p start) w = inr (ok, msg) /\
        (ok = true -> forall e, In e (raised tr) -> is_timeout e = true) /\
        (ok = false -> exists e, In e (raised tr) /\ msg = str e)) /\
  (forall args p mem_mb cpu last_action,
      exists last_action',
        result_of E (handle_trip requests_installed args p mem_mb cpu last_action) w
        = inr last_action').
Proof.
  repeat split.
  - intro svc; unfold result_of; rewrite restart_via_systemctl_run.
    destruct (respond E (run_systemctl_restart svc) w) as [[e | u] w1]; cbn;
      eexists; eexists; (split; [reflexivity|]); intros e' He;
      inversion He; subst; split; reflexivity.
  - intro cmd; unfold result_of; rewrite restart_via_command_run.
    destruct (respond E (run_shell cmd) w) as [[e | u] w1]; cbn;
      eexists; eexists; (split; [reflexivity|]); intros e' He;
      inversion He; subst; split; reflexivity.
  - intros p start tr.
    destruct (kill_and_start_result E p start w) as (ok & msg & Hr & Ht & Hf).
    exists ok, msg; split; [exact Hr|]; split; [|exact Hf].
    intro Hok; apply Ht; exact Hok.
  - intros; apply handle_trip_returns.
Qed.

End Strategy_claims.

Section Sampling_claims.

Context {W : Type} (E : env W).
Variable requests_installed : bool.

(** C1.  For a process whose two samples were read, the escalation of lines
    107-123 runs if and only if the memory bound is configured, nonzero and
    exceeded, or the cpu bound is configured, nonzero and exceeded; otherwise
    the pass over this process does nothing more and keeps [last_action]. *)
Theorem trip_iff_threshold_exceeded (args : Args) (p : proc)
    (last_action : option Q) (w w1 w2 : W) (rss : Z) (cpu : Q) :
  respond E (memory_info_rss p) w = (inr rss, w1) ->
  respond E (cpu_percent p (1 # 10)) w1 = (inr cpu, w2) ->
  let mem_mb := inject_Z rss / inject_Z (1024 ^ 2) in
  let debug := logging_log LvlDebug "PID %s mem=%.1fMB cpu=%.1f%%" in
  let w3 := snd (respond E debug w2) in
  let sampled :=
    [Ev (clock E w) (memory_info_rss p) (inr rss);
     Ev (clock E w1) (cpu_percent p (1 # 10)) (inr cpu);
     Ev (clock E w2) debug tt] in
  let escalation := handle_trip requests_installed args p mem_mb cpu last_action in
  (trips args mem_mb cpu = true
   <-> exceeds (max_mem_mb args) mem_mb \/ exceeds (max_cpu args) cpu) /\
  run E (check_proc requests_installed args p last_action) w =
  if trips args mem_mb cpu
  then (result_of E escalation w3, world_after E escalation w3,
        (sampled ++ trace_of E escalation w3)%list)
  else (inr last_action, w3, sampled).
Proof.
  intros Hrss Hcpu mem_mb debug w3 sampled escalation.
  split; [apply trips_spec|].
  unfold check_proc, try_except.
  rewrite run_bind.
  cbn [bindM attempt perform bind run].
  rewrite Hrss; cbn [bind run]; rewrite Hcpu; cbn [bind run].
  fold mem_mb debug.
  subst w3 sampled.
  destruct (respond E debug w2) as [[] w3]; cbn [snd bind].
  fold escalation.
  destruct (trips args mem_mb cpu).
  - rewrite (run_parts E escalation w3).
    destruct (handle_trip_returns E requests_installed args p mem_mb cpu last_action w3)
      as [r Hr].
    fold escalation in Hr; rewrite Hr; cbn.
    rewrite app_nil_r; reflexivity.
  - reflexivity.
Qed.

(** C8.  In name mode, for a non-empty target, the resolver returns the
    handles of exactly the enumerated processes whose reported name equals
    the target or whose joined command line contains it; entries that raise
    [NoSuchProcess] or [AccessDenied] when read are left out and the
    enumeration goes on. *)
Theorem find_processes_by_name_selects (target : string) (w : W) :
  target <> "" ->
  let entries := fst (respond E process_iter w) in
  (forall p e, In p entries -> info p = inl e -> is_gone e = true) ->
  result_of E (find_processes_by_name (Some target)) w
  = inr (map handle (filter (entry_selected target) entries)) /\
  (forall p, entry_selected target p = true <-> spec_name_match target p).
Proof.
  intros Hne entries Hgone; split.
  - unfold result_of, find_processes_by_name; cbn.
    subst entries.
    destruct (respond E process_iter w) as [l w1]; cbn in *.
    apply scan_filter; exact Hgone.
  - intro p; apply entry_selected_spec; exact Hne.
Qed.

End Sampling_claims.

Section Escalation_claims.

Context {W : Type} (E : env W).
Variable requests_installed : bool.

(** C4.  One trip calls the strategies in the order service restart, start
    command, terminate-and-restart, each behind the cooldown test the source
    makes for it, and stops at the first success.  The service restart is
    called exactly when a service is configured and the gate of line 110 is
    open; the start command exactly when the service restart did not report
    success, a start command is configured and the gate of line 114 is open;
    terminate-and-restart exactly when neither reported success and the gate
    of line 118 is open, and then its calls are an initial part of its
    sequence, the whole of it unless one of them failed.  So after a service
    restart that reported success nothing else is called, and after a start
    command that reported success terminate-and-restart is not called.
    ([w0], [w1] and [w2] are the worlds in which lines 110, 114 and 118 are
    reached.) *)
Theorem escalation_order (args : Args) (p : proc) (mem_mb cpu : Q)
    (last_action : option Q) (w : W) :
  let tr := trace_of E (handle_trip requests_installed args p mem_mb cpu last_action) w in
  let w0 := snd (respond E (logging_log LvlWarning
                              "Триггер для PID %s: mem=%.1fMB cpu=%.1f%%") w) in
  let w1 := world_after E (service_step args last_action) w0 in
  let w2 := world_after E (start_cmd_step args last_action (systemctl_ok tr)) w1 in
  let plan := kill_and_start_plan p (start_cmd args) (wait_timed_out tr) in
  let by_service :=
    match as_truthy (service args) with
    | Some svc => if gate_open E args last_action w0 then [ASystemctl svc] else []
    | None => []
    end in
  let by_command :=
    if systemctl_ok tr then []
    else match as_truthy (start_cmd args) with
         | Some cmd => if gate_open E args last_action w1 then [AShell cmd] else []
         | None => []
         end in
  exists by_kill,
    strategy_actions tr = (by_service ++ by_command ++ by_kill)%list /\
    (if systemctl_ok tr || shell_ok tr || negb (gate_open E args last_action w2)
     then by_kill = []
     else (exists n, (1 <= n)%nat /\ by_kill = firstn n plan) /\
          (aborted tr = false -> by_kill = plan)) /\
    (systemctl_ok tr = true ->
     exists svc, as_truthy (service args) = Some svc /\
                 strategy_actions tr = [ASystemctl svc]) /\
    (shell_ok tr = true ->
     exists cmd, as_truthy (start_cmd args) = Some cmd /\
                 strategy_actions tr = (by_service ++ [AShell cmd])%list).
Proof.
  cbv zeta.
  destruct (handle_trip_run E requests_installed args p mem_mb cpu last_action w)
    as (a1 & a2 & a3 & H1 & H2 & H3 & Hrun).
  unfold trace_of at 1 2 3 4 5 6 7 8 9 10 11 12; rewrite Hrun; cbn [snd]; clear Hrun.
  set (w0 := snd (respond E _ w)) in *.
  set (w1 := world_after E (service_step args last_action) w0) in *.
  set (w2 := world_after E (start_cmd_step args last_action a1) w1) in *.
  set (w3 := world_after E (kill_step args p last_action a2) w2) in *.
  destruct (service_step_exact E args last_action w0)
    as (HS & Hr1 & Hok1 & Hs1 & Hw1 & Hab1).
  destruct (start_cmd_step_exact E args last_action a1 w1)
    as (HC & Hr2 & Hok2 & Hc2 & Hw2 & Hab2).
  destruct (kill_step_exact E args p last_action a2 w2) as (Hc3 & Hs3 & HK).
  destruct (finish_trip_facts E requests_installed args p mem_mb cpu w3)
    as (_ & Hf1 & Hf2 & Hf3 & Hf4).
  pose proof (finish_trip_aborted E requests_installed args p mem_mb cpu w3) as Hf5.
  cbv zeta in *.
  fold w1 in Hr2, HC, Hok2, Hc2, Hw2, Hab2.
  set (t1 := trace_of E (service_step args last_action) w0) in *.
  set (t2 := trace_of E (start_cmd_step args last_action a1) w1) in *.
  set (t3 := trace_of E (kill_step args p last_action a2) w2) in *.
  set (tf := trace_of E (finish_trip requests_installed args p mem_mb cpu) w3) in *.
  set (trigger := Ev (clock E w)
         (logging_log LvlWarning "Триггер для PID %s: mem=%.1fMB cpu=%.1f%%") tt).
  assert (Hwt : wait_timed_out (trigger :: t1 ++ t2 ++ t3 ++ tf) = wait_timed_out t3).
  { change (wait_timed_out (t1 ++ t2 ++ t3 ++ tf) = wait_timed_out t3).
    rewrite !wait_timed_out_app, Hw1, Hw2, Hf4, orb_false_r; reflexivity. }
  assert (Hso : systemctl_ok (trigger :: t1 ++ t2 ++ t3 ++ tf) = systemctl_ok t1).
  { change (systemctl_ok (t1 ++ t2 ++ t3 ++ tf) = systemctl_ok t1).
    rewrite !systemctl_ok_app, Hc2, Hc3, Hf2, !orb_false_r; reflexivity. }
  assert (Hsh : shell_ok (trigger :: t1 ++ t2 ++ t3 ++ tf) = shell_ok t2).
  { change (shell_ok (t1 ++ t2 ++ t3 ++ tf) = shell_ok t2).
    rewrite !shell_ok_app, Hs1, Hs3, Hf3, !orb_false_r; reflexivity. }
  assert (Hab : aborted (trigger :: t1 ++ t2 ++ t3 ++ tf) = aborted t3).
  { change (aborted (t1 ++ t2 ++ t3 ++ tf) = aborted t3).
    rewrite !aborted_app, Hab1, Hab2, Hf5, orb_false_r; reflexivity. }
  assert (Hsa : strategy_actions (trigger :: t1 ++ t2 ++ t3 ++ tf)
                = (strategy_actions t1 ++ strategy_actions t2
                   ++ strategy_actions t3)%list).
  { change (strategy_actions (t1 ++ t2 ++ t3 ++ tf)
            = (strategy_actions t1 ++ strategy_actions t2 ++ strategy_actions t3)%list).
    rewrite !strategy_actions_app, Hf1, app_nil_r; reflexivity. }
  rewrite H1 in Hr1; inversion Hr1 as [Ha1]; clear Hr1.
  rewrite H2 in Hr2; inversion Hr2 as [Ha2]; clear Hr2.
  rewrite Hwt, Hso, Hsh, Hab, Hsa, <- Ha1.
  fold w1 w2.
  exists (strategy_actions t3).
  split; [rewrite HS, HC; reflexivity|].
  split.
  { rewrite <- Ha2.
    destruct (a2 || negb (gate_open E args last_action w2)).
    - apply HK.
    - exact HK. }
  split.
  - intro Hok; rewrite Hok in *.
    destruct (Hok1 (eq_sym Ha1)) as (svc & Hsvc & HS1).
    exists svc; split; [exact Hsvc|].
    cbn [orb] in Ha2; subst a2; cbn [orb] in HK.
    destruct HK as (HK & _).
    rewrite HS1, HC, HK; reflexivity.
  - intro Hok.
    destruct (Hok2 Hok) as (Hno & cmd & Hcmd & HC1).
    exists cmd; split; [exact Hcmd|].
    rewrite Hok, orb_true_r in Ha2; subst a2; cbn [orb] in HK.
    destruct HK as (HK & _).
    rewrite HS, HC1, HK; reflexivity.
Qed.

(** C10.  Whatever happened before (gate open or closed, strategies run or
    not, succeeded or failed), handling a trip ends by building the message,
    calling [notify_webhook] with it and setting [last_action] to the value
    [time.time()] then returns; with a webhook configured and [requests]
    installed the call posts to the webhook once. *)
Theorem trip_always_notifies_and_stamps (args : Args) (p : proc) (mem_mb cpu : Q)
    (last_action : option Q) (w : W) :
  exists before w0 now w1 t w3,
    let note := notify_webhook requests_installed (webhook args)
                  (MsgRestarted (name args) (proc_pid p) now mem_mb cpu) in
    let w2 := world_after E note w1 in
    respond E datetime_now w0 = (now, w1) /\
    respond E time_time w2 = (t, w3) /\
    run E (handle_trip requests_installed args p mem_mb cpu last_action) w =
    (inr (Some t), w3,
     (before ++ Ev (clock E w0) datetime_now now :: trace_of E note w1
      ++ [Ev (clock E w2) time_time t])%list) /\
    actions (trace_of E note w1)
    = match as_truthy (webhook args) with
      | Some url =>
          if requests_installed
          then [APost url (MsgRestarted (name args) (proc_pid p) now mem_mb cpu) 5]
          else []
      | None => []
      end.
Proof.
  destruct (handle_trip_ends E requests_installed args p mem_mb cpu last_action w)
    as (before & w0 & now & w1 & t & w3 & Hnow & Ht & Hrun).
  exists before, w0, now, w1, t, w3; cbv zeta.
  repeat (split; [assumption|]).
  destruct (notify_webhook_run E requests_installed (webhook args)
              (MsgRestarted (name args) (proc_pid p) now mem_mb cpu) w1)
    as (w' & _ & _ & Hact & _).
  exact Hact.
Qed.

End Escalation_claims.

(** ** The cooldown *)

Section Cooldown_claims.

Context {W : Type} (E : env W).
Variable requests_installed : bool.

(** C3, as amended.  In a run whose loop does not start [main] again, with a
    clock that does not run backwards: a recovery action dispatched after a
    trigger whose actions were followed by the update of [last_action] (the
    escalation of a trip; a not-found start whose command succeeded) comes
    more than [cooldown] seconds after every action of that trigger. *)
Theorem cooldown_between_triggers (dunder_name : string) (args : Args) (p : proc)
    (mem_mb cpu : Q) (last_action : option Q) (w : W) (fuel : nat)
    (pending : list proc) (trigger : M (option Q)) (L : option Q) (t1 t2 : Q) :
  lawful E ->
  dunder_name <> "__main__" ->
  0 < clock E w ->
  trigger = handle_trip requests_installed args p mem_mb cpu last_action \/
  (trigger = not_found requests_installed args last_action /\
   shell_ok (trace_of E trigger w) = true) ->
  result_of E trigger w = inr L ->
  In t1 (dispatch_times (trace_of E trigger w)) ->
  In t2 (dispatch_times
           (trace_of E
              (rest_of_run requests_installed dunder_name fuel args pending L)
              (world_after E trigger w))) ->
  inject_Z (cooldown args) < t2 - t1.
Proof.
  intros Hlaw Hname Hpos Htrigger HL Ht1 Ht2.
  assert (Hstamp : exists t,
             L = Some t /\ clock E w <= t /\
             t <= clock E (world_after E trigger w) /\
             forall e, In e (trace_of E trigger w) -> event_time e <= t).
  { destruct Htrigger as [-> | [-> Hok]].
    - destruct (handle_trip_stamp E Hlaw requests_installed args p mem_mb cpu
                  last_action w) as (t & Hr & Hlo & Hhi & Hall).
      rewrite Hr in HL; inversion HL; subst L; eauto.
    - destruct (not_found_stamp E Hlaw requests_installed args last_action w)
        as [(_ & Hno) | (t & Hr & Hlo & Hhi & Hall & _)]; [congruence|].
      rewrite Hr in HL; inversion HL; subst L; eauto. }
  destruct Hstamp as (t & -> & Hlo & Hhi & Hall).
  apply in_dispatch_times in Ht1; destruct Ht1 as (e1 & He1 & _ & <-).
  specialize (Hall e1 He1).
  assert (Hgate : inject_Z (cooldown args) < t2 - t).
  { refine (gated_rest_of_run E Hlaw requests_installed dunder_name fuel args
              pending t Hname _ _ Hhi t2 Ht2).
    lra. }
  lra.
Qed.

(** C5, as amended.  When no process was found, a start command is
    configured and the gate is open, the start command is run once and
    nothing else is dispatched, and no error is raised; if it succeeded the
    pass ends by calling [notify_webhook] and setting [last_action] to the
    reading of the clock; if it failed the pass ends there, with
    [last_action] as it was. *)
Theorem not_found_start_attempt (args : Args) (last_action : option Q) (w : W)
    (cmd : string) :
  as_truthy (start_cmd args) = Some cmd ->
  let warning := logging_log LvlWarning "Процесс не найден: %s" in
  let info := logging_log LvlInfo "Попытка старта: %s, %s" in
  let w0 := snd (respond E warning w) in
  let gate := cooldown_open args last_action in
  result_of E gate w0 = inr true ->
  let m := not_found requests_installed args last_action in
  let wg := world_after E gate w0 in
  let r := fst (respond E (run_shell cmd) wg) in
  let w1 := snd (respond E (run_shell cmd) wg) in
  let w2 := snd (respond E info w1) in
  let attempted :=
    (Ev (clock E w) warning tt :: trace_of E gate w0
     ++ [Ev (clock E wg) (run_shell cmd) r; Ev (clock E w1) info tt])%list in
  strategy_actions (trace_of E m w) = [AShell cmd] /\
  match r with
  | inr _ =>
      exists now w3 t w5,
        let note := notify_webhook requests_installed (webhook args)
                      (MsgStarted (name args) now) in
        respond E datetime_now w2 = (now, w3) /\
        respond E time_time (world_after E note w3) = (t, w5) /\
        run E m w =
        (inr (Some t), w5,
         (attempted ++ Ev (clock E w2) datetime_now now :: trace_of E note w3
          ++ [Ev (clock E (world_after E note w3)) time_time t])%list)
  | inl _ => run E m w = (inr last_action, w2, attempted)
  end.
Proof.
  intros Hcmd warning info w0 gate Hgate m wg r w1 w2 attempted.
  pose proof (not_found_run E requests_installed args last_action w) as Hrun.
  cbv zeta in Hrun.
  fold warning info w0 gate wg m in Hrun.
  rewrite Hcmd, Hgate in Hrun.
  fold r w1 w2 attempted in Hrun.
  destruct (cooldown_open_facts E args last_action w0) as (_ & _ & Hga).
  fold gate in Hga; cbv zeta in Hga.
  assert (Hatt : strategy_actions attempted = [AShell cmd]).
  { subst attempted.
    change (strategy_actions (trace_of E gate w0
              ++ [Ev (clock E wg) (run_shell cmd) r; Ev (clock E w1) info tt])%list
            = [AShell cmd]).
    rewrite strategy_actions_app, Hga; reflexivity. }
  destruct r as [e | u].
  - split; [|exact Hrun].
    unfold trace_of; rewrite Hrun; exact Hatt.
  - destruct (respond E datetime_now w2) as [now w3] eqn:Hnow.
    destruct (respond E time_time
                (world_after E (notify_webhook requests_installed (webhook args)
                                  (MsgStarted (name args) now)) w3))
      as [t w5] eqn:Ht.
    pose proof (finish_start_run E requests_installed args w2 w3 w5 now t Hnow Ht)
      as Hfin.
    rewrite (run_parts E (finish_start requests_installed args) w2) in Hfin.
    inversion Hfin as [[Hr Hw Htr]]; clear Hfin.
    rewrite Hr, Hw, Htr in Hrun.
    split.
    + unfold trace_of; rewrite Hrun; cbn [snd].
      destruct (finish_start_facts E requests_installed args w2) as (_ & Hf & _).
      cbv zeta in Hf; rewrite Htr in Hf.
      rewrite strategy_actions_app, Hatt, Hf; reflexivity.
    + exists now, w3, t, w5; cbv zeta.
      split; [reflexivity|]; split; [exact Ht | exact Hrun].
Qed.

End Cooldown_claims.

(** ** Concrete runs *)

Lemma trip_iff_threshold_exceeded_witness :
  trips app_args (inject_Z (150 * 1024 ^ 2) / inject_Z (1024 ^ 2)) 10 = true
  <-> exceeds (Some 100) (inject_Z (150 * 1024 ^ 2) / inject_Z (1024 ^ 2))
      \/ exceeds (Some 50) 10.
Proof.
  exact (proj1 (trip_iff_threshold_exceeded (scripted calm) true app_args
                  (mkProc 4242) None 1000 1000 1000 (150 * 1024 ^ 2) 10
                  eq_refl eq_refl)).
Defined.

Lemma find_processes_by_name_selects_witness :
  result_of (scripted (listing some_entries))
    (find_processes_by_name (Some "nginx")) 1000
  = inr [mkProc 1; mkProc 3].
Proof.
  refine (proj1 (find_processes_by_name_selects (scripted (listing some_entries))
                   "nginx" 1000 _ _)).
  - discriminate.
  - cbn; intros p e [<- | [<- | [<- | [<- | []]]]] He; cbn in He;
      try discriminate He.
    inversion He; reflexivity.
Defined.

Lemma cooldown_between_triggers_witness : inject_Z 300 < 1401 - 1000.
Proof.
  refine (cooldown_between_triggers (scripted calm) true "watchdog" slow_poll_args
            (mkProc 4242) 0 0 None 1000 2 []
            (not_found true slow_poll_args None) (Some 1001) 1000 1401
            (scripted_lawful calm) _ _ _ _ _ _).
  - discriminate.
  - reflexivity.
  - right; split; reflexivity.
  - reflexivity.
  - vm_compute; left; reflexivity.
  - vm_compute; left; reflexivity.
Defined.

Lemma not_found_start_attempt_witness :
  strategy_actions (trace_of (scripted calm) (not_found true start_only_args None) 1000)
  = [AShell "app start"].
Proof.
  exact (proj1 (not_found_start_attempt (scripted calm) true start_only_args None
                  1000 "app start" eq_refl eq_refl)).
Defined.

(** C2: the gate is closed (last action at 1000, now 1010, cooldown 300), no
    strategy is called, and yet the webhook is posted to and [last_action]
    moves from 1000 to 1010. *)
Theorem closed_gate_trip_restamps :
  let E := scripted calm in
  let m := handle_trip true app_args (mkProc 4242) 150 10 (Some 1000) in
  result_of E (cooldown_open app_args (Some 1000)) 1010 = inr false /\
  strategy_actions (trace_of E m 1010) = [] /\
  filter is_post (actions (trace_of E m 1010))
  = [APost "http://hooks.example/watchdog"
       (MsgRestarted (Some "app") 4242 "2026-01-01 00:00:00" 150 10) 5] /\
  result_of E m 1010 = inr (Some 1010).
Proof. vm_compute; repeat split. Qed.

(** C3 as stated fails: the start command fails twice, 16 seconds apart,
    with a cooldown of 300 seconds. *)
Lemma failed_starts_ignore_cooldown :
  let E := scripted failing_start in
  let tr := trace_of E (main true "watchdog" 2 start_only_args) 1000 in
  dispatch_times tr = [1000; 1016] /\
  1000 < 1016 /\
  ~ inject_Z (cooldown start_only_args) <= 1016 - 1000.
Proof.
  vm_compute; repeat split; intro H; apply H; reflexivity.
Qed.

(** C5 as stated fails: the start command fails, and the pass ends with no
    notification and no timestamp. *)
Lemma failed_start_leaves_no_stamp :
  let E := scripted failing_start in
  let m := not_found true start_only_args None in
  as_truthy (start_cmd start_only_args) = Some "app start" /\
  result_of E (cooldown_open start_only_args None) 1000 = inr true /\
  actions (trace_of E m 1000) = [AShell "app start"] /\
  result_of E m 1000 = inr None.
Proof. vm_compute; repeat split. Qed.

(** C9: the command line has no selector.  Lines 129-143 are indented into
    the loop of [main], so the script itself parses nothing, reports nothing
    and ends with exit status 0, as it does for every command line; and when
    [main] is called with such arguments in the module run as [__main__], a
    whole pass is made (enumeration, warning, a sleep of 15 seconds) before
    the command line is parsed and rejected. *)
Theorem selector_check_not_at_startup :
  let E := scripted (called_with default_args) in
  selector_error default_args = Some "Must specify --name or --pid" /\
  run E script 1000 = (0%Z, 1000, []) /\
  (forall (W : Type) (E' : env W) (w : W), run E' script w = (0%Z, w, [])) /\
  run E (main true "__main__" 1 default_args) 1000
  = (SystemExit 2 "Must specify --name or --pid", 1015,
     [Ev 1000 (logging_log LvlInfo "Запуск ProcessWatchdog для '%s' (интервал=%ss)") tt;
      Ev 1000 process_iter [];
      Ev 1000 (logging_log LvlWarning "Процесс не найден: %s") tt;
      Ev 1000 (time_sleep 15) (inr tt);
      Ev 1015 parse_args (inr default_args)]).
Proof. vm_compute; repeat split. Qed.

(** * Further properties of the code *)

Section Notification.

Context {W : Type} (E : env W).

(** X1.  [notify_webhook] never raises.  Without a URL it does nothing;
    without [requests] it only logs a warning; otherwise it posts once, with
    a timeout of 5 seconds, and a failed delivery is logged and dropped. *)
Theorem notify_webhook_outcomes (requests_installed : bool)
    (url : option string) (text : message) (w : W) :
  let m := notify_webhook requests_installed url text in
  result_of E m w = inr tt /\
  trace_of E m w =
  match as_truthy url with
  | None => []
  | Some u =>
      if requests_installed then
        let r := fst (respond E (requests_post u text 5) w) in
        let w1 := snd (respond E (requests_post u text 5) w) in
        Ev (clock E w) (requests_post u text 5) r
        :: match r with
           | inl _ =>
               [Ev (clock E w1)
                  (logging_log LvlError "Не удалось отправить webhook: %s") tt]
           | inr _ => []
           end
      else
        [Ev (clock E w)
           (logging_log LvlWarning "requests not installed — пропускаем уведомление")
           tt]
  end.
Proof.
  unfold result_of, trace_of, notify_webhook.
  destruct (as_truthy url) as [u|]; [|split; reflexivity].
  destruct requests_installed; all_runs E; split; reflexivity.
Qed.

End Notification.

Section Resolution.

Context {W : Type} (E : env W).

(** X2.  With a pid given the target is resolved by that pid alone: the name
    is not used and the processes are not enumerated; the result is the one
    process, or the empty list when [psutil.Process] (or [int]) raises
    anything, and no exception escapes. *)
Theorem resolve_by_pid (args : Args) (pid_arg : string) (w : W) :
  as_truthy (pid args) = Some pid_arg ->
  let r := fst (respond E (psutil_Process pid_arg) w) in
  run E (resolve args) w =
  (inr match r with inr p => [p] | inl _ => [] end,
   snd (respond E (psutil_Process pid_arg) w),
   [Ev (clock E w) (psutil_Process pid_arg) r]).
Proof.
  intros Hpid r; subst r; unfold resolve; rewrite Hpid.
  all_runs E; reflexivity.
Qed.

Lemma scan_stops (target : option string) (before after : list proc_entry)
    (p : proc_entry) (e : exn) :
  info p = inl e -> is_gone e = false ->
  forall procs, scan target before = inr procs ->
  scan target (before ++ p :: after) = inl e.
Proof.
  intros Hp Hgone.
  induction before as [|q before IH]; intros procs Hscan; cbn [app scan].
  - unfold entry_matches; rewrite Hp, Hgone; reflexivity.
  - cbn [scan] in Hscan.
    destruct (entry_matches target q) as [e' | [|]].
    + destruct (is_gone e'); [exact (IH procs Hscan) | discriminate].
    + destruct (scan target before) as [e' | l]; [discriminate|].
      rewrite (IH l eq_refl); reflexivity.
    + exact (IH procs Hscan).
Qed.

(** X3.  An entry that fails to be read with anything but [NoSuchProcess] or
    [AccessDenied] aborts the enumeration: when the entries before it were
    scanned without error, [find_processes_by_name] raises that exception and
    returns none of the processes already matched. *)
Theorem find_processes_by_name_aborts (target : option string) (w : W)
    (before after : list proc_entry) (p : proc_entry) (e : exn)
    (procs : list proc) :
  fst (respond E process_iter w) = (before ++ p :: after)%list ->
  scan target before = inr procs ->
  info p = inl e ->
  is_gone e = false ->
  result_of E (find_processes_by_name target) w = inl e.
Proof.
  intros Hentries Hscan Hp Hgone.
  unfold result_of, find_processes_by_name; cbn [run].
  destruct (respond E process_iter w) as [entries w1]; cbn [fst snd] in *.
  subst entries; exact (scan_stops target before after p e Hp Hgone procs Hscan).
Qed.

Lemma append_assoc3 (a b c : string) : (a ++ b) ++ c = a ++ b ++ c.
Proof. induction a as [|x a IH]; cbn; [reflexivity | rewrite IH; reflexivity]. Qed.

Lemma append_empty_r (a : string) : a ++ "" = a.
Proof. induction a as [|x a IH]; cbn; [reflexivity | rewrite IH; reflexivity]. Qed.

Lemma join_space_cons (x : string) (xs : list string) :
  xs <> [] -> join_space (x :: xs) = x ++ " " ++ join_space xs.
Proof. destruct xs; [contradiction | reflexivity]. Qed.

Lemma argument_in_joined (target : string) (cmdline : list string) :
  In target cmdline -> str_contains target (join_space cmdline) = true.
Proof.
  intro Hin; apply str_contains_spec.
  induction cmdline as [|x xs IH]; [destruct Hin|].
  destruct xs as [|y ys].
  - destruct Hin as [-> | []].
    exists "", ""; cbn; rewrite append_empty_r; reflexivity.
  - rewrite join_space_cons by discriminate.
    destruct Hin as [-> | Hin].
    + exists "", (" " ++ join_space (y :: ys)); reflexivity.
    + destruct (IH Hin) as (pre & post & Heq).
      exists (x ++ " " ++ pre), post.
      rewrite Heq, !append_assoc3; reflexivity.
Qed.

(** X4.  A process is matched as soon as the target string is one of its
    command-line arguments, whatever its name: the resolver then returns it
    (so a watchdog started with [--name target] matches itself). *)
Theorem argument_match_selects (target : string) (w : W) (p : proc_entry)
    (i : proc_info) (cmdline : list string) :
  let entries := fst (respond E process_iter w) in
  (forall q e, In q entries -> info q = inl e -> is_gone e = true) ->
  In p entries ->
  info p = inr i ->
  info_cmdline i = Some cmdline ->
  In target cmdline ->
  exists procs,
    result_of E (find_processes_by_name (Some target)) w = inr procs /\
    In (handle p) procs.
Proof.
  intros entries Hgone Hp Hi Hcmd Hin.
  exists (map handle (filter (entry_selected target) entries)); split.
  - unfold result_of, find_processes_by_name; cbn [run].
    subst entries.
    destruct (respond E process_iter w) as [l w1]; cbn [fst snd] in *.
    apply scan_filter; exact Hgone.
  - apply in_map, filter_In; split; [exact Hp|].
    unfold entry_selected, entry_matches; rewrite Hi.
    destruct (match info_name i with
              | Some n => String.eqb n target
              | None => false
              end); [reflexivity|].
    rewrite Hcmd.
    destruct cmdline as [|a c]; [destruct Hin|].
    rewrite (argument_in_joined target (a :: c) Hin); reflexivity.
Qed.

End Resolution.

Section Passes.

Context {W : Type} (E : env W).
Variable requests_installed : bool.
Variable dunder_name : string.

Lemma scan_without_target (entries : list proc_entry) :
  (forall q e, In q entries -> info q = inl e -> is_gone e = true) ->
  (exists p, In p entries /\ named_with_cmdline p) ->
  scan None entries
  = inl (OtherException "'in <string>' requires string as left operand, not NoneType").
Proof.
  induction entries as [|q rest IH]; intros Hgone (p & Hin & Hp).
  - destruct Hin.
  - assert (Hrest : (exists p0, In p0 rest /\ named_with_cmdline p0) ->
                    scan None rest = inl (OtherException
                      "'in <string>' requires string as left operand, not NoneType"))
      by (apply IH; intros q0 e Hq0; apply Hgone; right; exact Hq0).
    cbn [scan]; unfold entry_matches.
    destruct (info q) as [e | [[n|] c]] eqn:Hq.
    + rewrite (Hgone q e (or_introl eq_refl) Hq).
      apply Hrest; exists p; split; [|exact Hp].
      destruct Hin as [<- | Hin]; [|exact Hin].
      destruct Hp as (n & a & c & Hp); congruence.
    + cbn [info_name info_cmdline].
      destruct c as [[|a c]|]; try reflexivity;
        (apply Hrest; exists p; split; [|exact Hp];
         destruct Hin as [<- | Hin]; [|exact Hin];
         destruct Hp as (n' & a' & c' & Hp); congruence).
    + cbn [info_name info_cmdline].
      rewrite Hrest; [reflexivity|].
      exists p; split; [|exact Hp].
      destruct Hin as [<- | Hin]; [|exact Hin].
      destruct Hp as (n' & a' & c' & Hp); congruence.
Qed.

(** X5.  [main] called with neither a pid nor a name does not survive its
    first pass when some process has a name and a command line: evaluating
    [name in ...] with [name = None] raises [TypeError], which nothing
    catches. *)
Theorem main_without_selector_raises (fuel : nat) (args : Args) (w : W) :
  as_truthy (pid args) = None ->
  name args = None ->
  let started := logging_log LvlInfo "Запуск ProcessWatchdog для '%s' (интервал=%ss)" in
  let entries := fst (respond E process_iter (snd (respond E started w))) in
  (forall q e, In q entries -> info q = inl e -> is_gone e = true) ->
  (exists p, In p entries /\ named_with_cmdline p) ->
  result_of E (main requests_installed dunder_name (S fuel) args) w
  = Raised (OtherException
              "'in <string>' requires string as left operand, not NoneType").
Proof.
  intros Hpid Hname started entries Hgone Hex.
  unfold main, enter, result_of; cbn [run main_loop]; fold started.
  subst entries.
  destruct (respond E started w) as [[] w0]; cbn [snd] in *.
  assert (Htick : result_of E (tick requests_installed args None) w0
                  = inl (OtherException
                      "'in <string>' requires string as left operand, not NoneType")).
  { unfold tick, result_of; rewrite run_bindM.
    assert (Hres : result_of E (resolve args) w0
                   = inl (OtherException
                       "'in <string>' requires string as left operand, not NoneType")).
    { unfold resolve; rewrite Hpid, Hname.
      unfold result_of, find_processes_by_name; cbn [run].
      destruct (respond E process_iter w0) as [l w1]; cbn [fst snd] in *.
      apply scan_without_target; assumption. }
    rewrite Hres; reflexivity. }
  unfold after_tick; rewrite run_bind, (run_parts E (tick _ _ _) w0), Htick.
  reflexivity.
Qed.

Lemma check_proc_gone_at_rss (args : Args) (p : proc) (last_action : option Q)
    (w w1 : W) (e : exn) :
  respond E (memory_info_rss p) w = (inl e, w1) ->
  run E (check_proc requests_installed args p last_action) w =
  (if is_gone e then inr last_action else inl e, w1,
   [Ev (clock E w) (memory_info_rss p) (inl e)]).
Proof.
  intro Hrss; unfold check_proc; rewrite run_try_except.
  unfold result_of, world_after, trace_of; cbn [bindM attempt bind run].
  rewrite Hrss; cbn [bind run fst snd].
  destruct (is_gone e); reflexivity.
Qed.

Lemma check_proc_gone_at_cpu (args : Args) (p : proc) (last_action : option Q)
    (w w1 w2 : W) (rss : Z) (e : exn) :
  respond E (memory_info_rss p) w = (inr rss, w1) ->
  respond E (cpu_percent p (1 # 10)) w1 = (inl e, w2) ->
  run E (check_proc requests_installed args p last_action) w =
  (if is_gone e then inr last_action else inl e, w2,
   [Ev (clock E w) (memory_info_rss p) (inr rss);
    Ev (clock E w1) (cpu_percent p (1 # 10)) (inl e)]).
Proof.
  intros Hrss Hcpu; unfold check_proc; rewrite run_try_except.
  unfold result_of, world_after, trace_of; cbn [bindM attempt bind run].
  rewrite Hrss; cbn [bind run fst snd]; rewrite Hcpu; cbn [bind run fst snd].
  destruct (is_gone e); reflexivity.
Qed.

(** X6.  A process that vanishes or denies access while it is sampled (at
    the memory read or at the cpu read) is skipped: nothing is done about
    it, [last_action] is kept, and the pass goes on with the remaining
    processes. *)
Theorem vanished_process_is_skipped (args : Args) (p : proc) (rest : list proc)
    (last_action : option Q) (w : W) :
  (forall e w1,
      respond E (memory_info_rss p) w = (inl e, w1) ->
      is_gone e = true ->
      run E (check_procs requests_installed args (p :: rest) last_action) w =
      let '(r, w', tr) :=
        run E (check_procs requests_installed args rest last_action) w1 in
      (r, w', Ev (clock E w) (memory_info_rss p) (inl e) :: tr)) /\
  (forall rss w1 e w2,
      respond E (memory_info_rss p) w = (inr rss, w1) ->
      respond E (cpu_percent p (1 # 10)) w1 = (inl e, w2) ->
      is_gone e = true ->
      run E (check_procs requests_installed args (p :: rest) last_action) w =
      let '(r, w', tr) :=
        run E (check_procs requests_installed args rest last_action) w2 in
      (r, w', Ev (clock E w) (memory_info_rss p) (inr rss)
              :: Ev (clock E w1) (cpu_percent p (1 # 10)) (inl e) :: tr)).
Proof.
  split.
  - intros e w1 Hrss Hgone.
    pose proof (check_proc_gone_at_rss args p last_action w w1 e Hrss) as Hrun.
    rewrite Hgone in Hrun.
    assert (Hr : result_of E (check_proc requests_installed args p last_action) w
                 = inr last_action) by (unfold result_of; rewrite Hrun; reflexivity).
    assert (Hw : world_after E (check_proc requests_installed args p last_action) w
                 = w1) by (unfold world_after; rewrite Hrun; reflexivity).
    assert (Ht : trace_of E (check_proc requests_installed args p last_action) w
                 = snd (run E (check_proc requests_installed args p last_action) w))
      by reflexivity.
    rewrite Hrun in Ht; cbn [snd] in Ht.
    cbn [check_procs]; rewrite run_bindM, Hr, Hw, Ht.
    rewrite (run_parts E (check_procs _ _ rest last_action) w1); reflexivity.
  - intros rss w1 e w2 Hrss Hcpu Hgone.
    pose proof (check_proc_gone_at_cpu args p last_action w w1 w2 rss e Hrss Hcpu)
      as Hrun.
    rewrite Hgone in Hrun.
    assert (Hr : result_of E (check_proc requests_installed args p last_action) w
                 = inr last_action) by (unfold result_of; rewrite Hrun; reflexivity).
    assert (Hw : world_after E (check_proc requests_installed args p last_action) w
                 = w2) by (unfold world_after; rewrite Hrun; reflexivity).
    assert (Ht : trace_of E (check_proc requests_installed args p last_action) w
                 = snd (run E (check_proc requests_installed args p last_action) w))
      by reflexivity.
    rewrite Hrun in Ht; cbn [snd] in Ht.
    cbn [check_procs]; rewrite run_bindM, Hr, Hw, Ht.
    rewrite (run_parts E (check_procs _ _ rest last_action) w2); reflexivity.
Qed.

(** X7.  Any other exception raised while a process is sampled is not
    caught: the remaining processes are not checked, the loop does not
    sleep, and [main] ends with that exception. *)
Theorem unexpected_sampling_error_ends_main (fuel : nat) (args : Args) (p : proc)
    (rest : list proc) (last_action : option Q) (w w1 : W) (e : exn) :
  respond E (memory_info_rss p) w = (inl e, w1) ->
  is_gone e = false ->
  run E (rest_of_run requests_installed dunder_name fuel args (p :: rest) last_action) w
  = (Raised e, w1, [Ev (clock E w) (memory_info_rss p) (inl e)]).
Proof.
  intros Hrss Hgone.
  pose proof (check_proc_gone_at_rss args p last_action w w1 e Hrss) as Hrun.
  rewrite Hgone in Hrun.
  unfold rest_of_run, after_tick; rewrite run_bind.
  cbn [check_procs]; rewrite run_bindM.
  unfold result_of, world_after, trace_of; rewrite Hrun; reflexivity.
Qed.

(** X8.  When no process is found and either no start command is configured
    or the gate is closed, the pass starts nothing, notifies nobody and keeps
    [last_action]: it logs the warning and, with a start command, reads the
    clock. *)
Theorem not_found_idle (args : Args) (last_action : option Q) (w : W) :
  let warning := logging_log LvlWarning "Процесс не найден: %s" in
  let w0 := snd (respond E warning w) in
  let gate := cooldown_open args last_action in
  as_truthy (start_cmd args) = None \/ result_of E gate w0 = inr false ->
  let m := not_found requests_installed args last_action in
  result_of E m w = inr last_action /\
  trace_of E m w
  = Ev (clock E w) warning tt
    :: match as_truthy (start_cmd args) with
       | Some _ => trace_of E gate w0
       | None => []
       end /\
  strategy_events (trace_of E m w) = [].
Proof.
  intros warning w0 gate Hidle m.
  pose proof (not_found_run E requests_installed args last_action w) as Hrun.
  cbv zeta in Hrun; fold warning w0 gate m in Hrun.
  destruct (cooldown_open_facts E args last_action w0) as (Hq & _).
  fold gate in Hq; cbv zeta in Hq.
  unfold result_of, trace_of at 1 3.
  destruct (as_truthy (start_cmd args)) as [cmd|].
  - destruct Hidle as [Hno | Hclosed]; [discriminate|].
    rewrite Hclosed in Hrun; rewrite Hrun; cbn [fst snd].
    repeat split; exact Hq.
  - rewrite Hrun; repeat split.
Qed.

End Passes.

Section Escalation_extras.

Context {W : Type} (E : env W).
Variable requests_installed : bool.

(** X9.  [kill_and_start] reports success exactly when none of its calls
    failed other than the wait by its timeout; in particular a start command
    that cannot be launched makes it report failure although the process has
    been terminated. *)
Theorem kill_and_start_reports (p : proc) (start : option string) (w : W) :
  let tr := trace_of E (kill_and_start p start) w in
  exists msg,
    result_of E (kill_and_start p start) w
    = inr (negb (aborted tr || launch_failed tr), msg).
Proof.
  unfold trace_of, result_of, kill_and_start.
  all_runs E; eexists; reflexivity.
Qed.

Lemma service_step_open (args : Args) (w : W) :
  let tr := trace_of E (service_step args None) w in
  strategy_actions tr = opt_action ASystemctl (service args) /\
  result_of E (service_step args None) w = inr (systemctl_ok tr) /\
  shell_ok tr = false /\ wait_timed_out tr = false.
Proof.
  unfold trace_of, result_of, service_step, cooldown_open, restart_via_systemctl,
    opt_action.
  all_runs E; repeat split.
Qed.

Lemma start_cmd_step_open (args : Args) (a : bool) (w : W) :
  let tr := trace_of E (start_cmd_step args None a) w in
  systemctl_ok tr = false /\ wait_timed_out tr = false /\
  strategy_actions tr = (if a then [] else opt_action AShell (start_cmd args)) /\
  result_of E (start_cmd_step args None a) w = inr (a || shell_ok tr) /\
  (a = true -> shell_ok tr = false).
Proof.
  unfold trace_of, result_of, start_cmd_step, cooldown_open, restart_via_command,
    opt_action.
  destruct a; all_runs E; repeat split; discriminate.
Qed.

Lemma kill_step_open (args : Args) (p : proc) (a : bool) (w : W) :
  let tr := trace_of E (kill_step args p None a) w in
  systemctl_ok tr = false /\ shell_ok tr = false /\
  if a then strategy_actions tr = [] /\ wait_timed_out tr = false
  else exists n, (1 <= n)%nat /\
         strategy_actions tr
         = firstn n (kill_and_start_plan p (start_cmd args) (wait_timed_out tr)).
Proof.
  unfold trace_of, result_of, kill_step, cooldown_open, kill_and_start,
    kill_and_start_plan.
  destruct a; all_runs E;
    (split; [reflexivity|]; split; [reflexivity|];
     first
       [ split; reflexivity
       | exists 1%nat; split; [lia | reflexivity]
       | exists 2%nat; split; [lia | reflexivity]
       | exists 3%nat; split; [lia | reflexivity]
       | exists 4%nat; split; [lia | reflexivity]
       | exists 5%nat; split; [lia | reflexivity] ]).
Qed.

(** X10.  The first trip of a run (no action taken yet, so the gate is open)
    escalates until a strategy succeeds: the service restart runs if and
    only if a service is configured; unless it succeeded, the start command
    runs if and only if one is configured; unless that succeeded,
    terminate-and-restart runs.  With neither configured the trip is a
    termination only. *)
Theorem first_trip_escalates_until_success (args : Args) (p : proc)
    (mem_mb cpu : Q) (w : W) :
  let tr := trace_of E (handle_trip requests_installed args p mem_mb cpu None) w in
  exists n, (1 <= n)%nat /\
    strategy_actions tr =
    (opt_action ASystemctl (service args)
     ++ if systemctl_ok tr then []
        else opt_action AShell (start_cmd args)
             ++ if shell_ok tr then []
                else firstn n (kill_and_start_plan p (start_cmd args)
                                 (wait_timed_out tr)))%list.
Proof.
  intro tr; subst tr; unfold trace_of.
  destruct (handle_trip_run E requests_installed args p mem_mb cpu None w)
    as (a1 & a2 & a3 & H1 & H2 & H3 & Hrun).
  rewrite Hrun; cbn [snd]; clear Hrun.
  set (w0 := snd (respond E _ w)) in *.
  set (w1 := world_after E (service_step args None) w0) in *.
  set (w2 := world_after E (start_cmd_step args None a1) w1) in *.
  set (w3 := world_after E (kill_step args p None a2) w2) in *.
  destruct (service_step_open args w0) as (HS & Hr1 & Hs1 & Hw1).
  destruct (start_cmd_step_open args a1 w1) as (Hc2 & Hw2 & HC & Hr2 & Hsh2).
  destruct (kill_step_open args p a2 w2) as (Hc3 & Hs3 & HK).
  destruct (finish_trip_facts E requests_installed args p mem_mb cpu w3)
    as (_ & Hf1 & Hf2 & Hf3 & Hf4).
  cbv zeta in *.
  set (t1 := trace_of E (service_step args None) w0) in *.
  set (t2 := trace_of E (start_cmd_step args None a1) w1) in *.
  set (t3 := trace_of E (kill_step args p None a2) w2) in *.
  set (tf := trace_of E (finish_trip requests_installed args p mem_mb cpu) w3) in *.
  set (trigger := Ev (clock E w)
         (logging_log LvlWarning "Триггер для PID %s: mem=%.1fMB cpu=%.1f%%") tt).
  assert (Hwt : wait_timed_out (trigger :: t1 ++ t2 ++ t3 ++ tf) = wait_timed_out t3).
  { change (wait_timed_out (t1 ++ t2 ++ t3 ++ tf) = wait_timed_out t3).
    rewrite !wait_timed_out_app, Hw1, Hw2, Hf4, orb_false_r; reflexivity. }
  assert (Hso : systemctl_ok (trigger :: t1 ++ t2 ++ t3 ++ tf) = systemctl_ok t1).
  { change (systemctl_ok (t1 ++ t2 ++ t3 ++ tf) = systemctl_ok t1).
    rewrite !systemctl_ok_app, Hc2, Hc3, Hf2, !orb_false_r; reflexivity. }
  assert (Hsh : shell_ok (trigger :: t1 ++ t2 ++ t3 ++ tf) = shell_ok t2).
  { change (shell_ok (t1 ++ t2 ++ t3 ++ tf) = shell_ok t2).
    rewrite !shell_ok_app, Hs1, Hs3, Hf3, !orb_false_r; reflexivity. }
  assert (Hsa : strategy_actions (trigger :: t1 ++ t2 ++ t3 ++ tf)
                = (strategy_actions t1 ++ strategy_actions t2
                   ++ strategy_actions t3)%list).
  { change (strategy_actions (t1 ++ t2 ++ t3 ++ tf)
            = (strategy_actions t1 ++ strategy_actions t2 ++ strategy_actions t3)%list).
    rewrite !strategy_actions_app, Hf1, app_nil_r; reflexivity. }
  rewrite Hwt, Hso, Hsh, Hsa, HS, HC.
  rewrite H1 in Hr1; inversion Hr1 as [Ha1]; rewrite <- Ha1.
  rewrite H2 in Hr2; inversion Hr2 as [Ha2].
  destruct a1; cbn [orb] in Ha2.
  - subst a2; destruct HK as [HK _]; rewrite HK.
    exists 1%nat; split; [lia | reflexivity].
  - rewrite <- Ha2.
    destruct a2.
    + destruct HK as [HK _]; rewrite HK, app_nil_r.
      exists 1%nat; split; [lia | reflexivity].
    + destruct HK as (n & Hn & HK); rewrite HK.
      exists n; split; [exact Hn | reflexivity].
Qed.

(** X11.  A trip during which every reading of the clock ([time.time()],
    lines 110-123) is within [cooldown] seconds of [last_action] calls no
    recovery strategy at all. *)
Theorem trip_within_cooldown_calls_no_strategy (args : Args) (p : proc)
    (mem_mb cpu u : Q) (w : W) :
  let tr := trace_of E (handle_trip requests_installed args p mem_mb cpu (Some u)) w in
  ~ u == 0 ->
  (forall now, In now (clock_readings tr) -> now - u <= inject_Z (cooldown args)) ->
  strategy_events tr = [].
Proof.
  intros tr Hu Hclosed.
  apply closed_gate_dispatches_nothing.
  - apply truthy_num_spec; exists u; split; [reflexivity | exact Hu].
  - intros now Hin; apply Qltb_ge; exact (Hclosed now Hin).
Qed.

(** X12.  The memory bound is in units of 1024 * 1024 bytes: a sample trips
    on memory exactly when the bound is set, nonzero and the resident set
    size in bytes exceeds the bound times 1048576. *)
Theorem memory_bound_in_bytes (args : Args) (rss : Z) (cpu : Q) :
  trips args (inject_Z rss / inject_Z (1024 ^ 2)) cpu = true
  <-> (exists m, max_mem_mb args = Some m /\ ~ m == 0 /\
                 m * 1048576 < inject_Z rss)
      \/ exceeds (max_cpu args) cpu.
Proof.
  rewrite trips_spec; unfold exceeds at 1.
  change (inject_Z (1024 ^ 2)) with 1048576.
  split; (intros [(m & Hm & Hne & Hlt) | Hcpu]; [left | right; exact Hcpu]);
    exists m; repeat split; try assumption.
  - apply (Qmult_lt_r _ _ 1048576) in Hlt; [|reflexivity].
    assert (Heq : inject_Z rss / 1048576 * 1048576 == inject_Z rss)
      by (field).
    rewrite Heq in Hlt; exact Hlt.
  - apply Qlt_shift_div_l; [reflexivity | exact Hlt].
Qed.

End Escalation_extras.

Section Loop_extras.

Context {W : Type} (E : env W).
Variable requests_installed : bool.
Variable dunder_name : string.

Lemma raises_only_of_returns {A : Type} (P : exn -> bool) (m : M A) :
  returns E m -> raises_only E P m.
Proof. intros Hm w e He; destruct (Hm w) as [a Ha]; congruence. Qed.

Lemma raises_only_bindM {A B : Type} (P : exn -> bool) (m : M A) (f : A -> M B) :
  raises_only E P m -> (forall a, raises_only E P (f a)) ->
  raises_only E P (bindM m f).
Proof.
  intros Hm Hf w e; unfold result_of; rewrite run_bindM.
  destruct (result_of E m w) as [e' | a] eqn:Hr; cbn [fst].
  - intro He; inversion He; subst e'; exact (Hm w e Hr).
  - apply Hf.
Qed.

Lemma raises_only_attempt {R : Type} (P : exn -> bool) (c : call (exn + R)) :
  (forall w e, fst (respond E c w) = inl e -> P e = true) ->
  raises_only E P (attempt c).
Proof.
  intros Hc w e; unfold result_of, attempt; cbn [run].
  specialize (Hc w e).
  destruct (respond E c w) as [r w1]; cbn [fst] in *; exact Hc.
Qed.

Lemma returns_try_except_only {A : Type} (P : exn -> bool) (body : M A)
    (handler : exn -> M A) :
  raises_only E P body -> (forall e, returns E (handler e)) ->
  returns E (try_except body P handler).
Proof.
  intros Hb Hh w; unfold result_of; rewrite run_try_except.
  destruct (result_of E body w) as [e | a] eqn:Hr.
  - rewrite (Hb w e Hr); cbn [fst]; apply Hh.
  - exists a; reflexivity.
Qed.

Section Tame.

Variable args : Args.
Hypothesis Htame : tame E args.
Hypothesis Hselector :
  as_truthy (pid args) <> None \/ exists target, name args = Some target.

Lemma resolve_returns_tame : returns E (resolve args).
Proof.
  unfold resolve.
  destruct (as_truthy (pid args)) as [pid_arg|].
  - apply returns_try_except; intro e; apply returns_ret.
  - destruct Hselector as [H | (target & Htarget)]; [contradiction H; reflexivity|].
    rewrite Htarget; intro w.
    unfold result_of, find_processes_by_name; cbn [run].
    pose proof (tame_entries E args Htame w) as Hentries.
    destruct (respond E process_iter w) as [l w1]; cbn [fst snd] in *.
    rewrite (scan_filter target l Hentries); eexists; reflexivity.
Qed.

Lemma check_proc_returns_tame (p : proc) (last_action : option Q) :
  returns E (check_proc requests_installed args p last_action).
Proof.
  unfold check_proc.
  apply returns_try_except_only; [|intro e; apply returns_ret].
  apply raises_only_bindM;
    [apply raises_only_attempt; intros w e; apply (tame_rss E args Htame) | intro rss].
  apply raises_only_bindM;
    [apply raises_only_attempt; intros w e; apply (tame_cpu E args Htame) | intro cpu].
  apply raises_only_bindM;
    [apply raises_only_of_returns, returns_perform | intros _].
  apply raises_only_of_returns.
  destruct (trips args _ cpu); [apply handle_trip_returns | apply returns_ret].
Qed.

Lemma check_procs_returns_tame (procs : list proc) (last_action : option Q) :
  returns E (check_procs requests_installed args procs last_action).
Proof.
  revert last_action; induction procs as [|p rest IH]; intro last_action;
    cbn [check_procs].
  - apply returns_ret.
  - apply returns_bindM; [apply check_proc_returns_tame | exact IH].
Qed.

Lemma not_found_returns (last_action : option Q) :
  returns E (not_found requests_installed args last_action).
Proof.
  unfold not_found.
  apply returns_bindM; [apply returns_perform | intros _].
  destruct (as_truthy (start_cmd args)) as [cmd|]; [|apply returns_ret].
  apply returns_bindM; [apply cooldown_open_returns | intros [|]];
    [|apply returns_ret].
  apply returns_bindM; [apply restart_via_command_returns | intros [ok msg]].
  apply returns_bindM; [apply returns_perform | intros _].
  destruct ok; [|apply returns_ret].
  apply (finish_start_returns E requests_installed args).
Qed.

Lemma tick_returns_tame (last_action : option Q) :
  returns E (tick requests_installed args last_action).
Proof.
  unfold tick.
  apply returns_bindM; [apply resolve_returns_tame | intros [|p rest]].
  - apply not_found_returns.
  - apply check_procs_returns_tame.
Qed.

Lemma main_loop_keeps_looping (fuel : nat) (last_action : option Q) (w : W) :
  dunder_name <> "__main__" ->
  result_of E (main_loop requests_installed dunder_name fuel args last_action) w
  = StillLooping.
Proof.
  intro Hname; apply String.eqb_neq in Hname.
  revert last_action w; induction fuel as [|fuel IH]; intros last_action w;
    [reflexivity|].
  cbn [main_loop]; unfold after_tick; rewrite result_bind.
  destruct (tick_returns_tame last_action w) as [L HL]; rewrite HL.
  unfold result_of; cbn [run].
  destruct (tame_sleep E args Htame
              (world_after E (tick requests_installed args last_action) w))
    as [u Hu].
  destruct (respond E (time_sleep (interval args))
              (world_after E (tick requests_installed args last_action) w))
    as [slept w1]; cbn [fst] in Hu; subst slept.
  rewrite Hname.
  specialize (IH L w1); unfold result_of in IH.
  destruct (run E (main_loop requests_installed dunder_name fuel args L) w1)
    as [[r w2] tr]; cbn [fst] in *; exact IH.
Qed.

End Tame.

(** X13.  Imported and called with a pid or a name, [main] cannot end by
    itself while psutil fails only with [NoSuchProcess] or [AccessDenied] and
    sleeping does not fail: neither a recovery that fails, nor a webhook that
    cannot be reached, nor a process that vanishes raises out of the loop,
    however many passes are made. *)
Theorem main_keeps_looping (args : Args) (fuel : nat) (w : W) :
  tame E args ->
  as_truthy (pid args) <> None \/ (exists target, name args = Some target) ->
  dunder_name <> "__main__" ->
  result_of E (main requests_installed dunder_name fuel args) w = StillLooping.
Proof.
  intros Htame Hselector Hname.
  unfold main, enter, result_of; cbn [run].
  destruct (respond E _ w) as [[] w0].
  pose proof (main_loop_keeps_looping args Htame Hselector fuel None w0 Hname) as H.
  unfold result_of in H.
  destruct (run E (main_loop requests_installed dunder_name fuel args None) w0)
    as [[r w2] tr]; cbn [fst] in *; exact H.
Qed.

End Loop_extras.

Section Edge_cases.

Context {W : Type} (E : env W).

Local Arguments str : simpl never.

(** X14.  When a call of the termination sequence fails other than by the
    timeout of the wait (the process is already gone, say), terminate-and-
    restart does not launch the start command, and reports failure with the
    text of the exception. *)
Theorem kill_and_start_aborted (p : proc) (start : option string) (w : W) :
  let tr := trace_of E (kill_and_start p start) w in
  aborted tr = true ->
  filter is_popen (actions tr) = [] /\
  exists e, In e (raised tr) /\
            result_of E (kill_and_start p start) w = inr (false, str e).
Proof.
  unfold trace_of, result_of, kill_and_start.
  all_runs E; intro Hab; try discriminate Hab;
    (split; [reflexivity|]; eexists; split; [|reflexivity]; cbn; auto 6).
Qed.

Lemma contains_empty (hay : string) : str_contains "" hay = true.
Proof. destruct hay; reflexivity. Qed.

(** X15.  An empty target matches every process that has a command line:
    [find_processes_by_name("")] returns all of them. *)
Theorem empty_target_matches_every_command_line (w : W) (p : proc_entry)
    (i : proc_info) (a : string) (c : list string) :
  let entries := fst (respond E process_iter w) in
  (forall q e, In q entries -> info q = inl e -> is_gone e = true) ->
  In p entries ->
  info p = inr i ->
  info_cmdline i = Some (a :: c) ->
  exists procs,
    result_of E (find_processes_by_name (Some "")) w = inr procs /\
    In (handle p) procs.
Proof.
  intros entries Hgone Hp Hi Hcmd.
  exists (map handle (filter (entry_selected "") entries)); split.
  - unfold result_of, find_processes_by_name; cbn [run].
    subst entries.
    destruct (respond E process_iter w) as [l w1]; cbn [fst snd] in *.
    apply scan_filter; exact Hgone.
  - apply in_map, filter_In; split; [exact Hp|].
    unfold entry_selected, entry_matches; rewrite Hi.
    destruct (match info_name i with
              | Some n => String.eqb n ""
              | None => false
              end); [reflexivity|].
    rewrite Hcmd, contains_empty; reflexivity.
Qed.

End Edge_cases.

Section Startup_block.

Context {W : Type} (E : env W).

(** X16.  Where the block of lines 130-143 runs, its check rejects the
    parsed command line exactly when neither a name nor a pid is given: the
    error is reported, the process exits with status 2 and [main] is not
    called.  In every other case, both selectors given included, [main] is
    called with the parsed arguments. *)
Theorem startup_selector_check (enter_main : Args -> prog outcome) (w w1 : W)
    (args : Args) :
  respond E parse_args w = (inr args, w1) ->
  (selector_error args <> None
   <-> as_truthy (name args) = None /\ as_truthy (pid args) = None) /\
  run E (startup enter_main) w =
  match as_truthy (name args), as_truthy (pid args) with
  | None, None =>
      (SystemExit 2 "Must specify --name or --pid", w1,
       [Ev (clock E w) parse_args (inr args)])
  | _, _ =>
      let '(r, w2, tr) := run E (enter_main args) w1 in
      (r, w2, Ev (clock E w) parse_args (inr args) :: tr)
  end.
Proof.
  intro Hparse; split.
  - unfold selector_error.
    destruct (as_truthy (name args)), (as_truthy (pid args));
      split; try (intros [H1 H2]; discriminate); try (intro H; contradiction H; reflexivity);
      intros; try split; try reflexivity; discriminate.
  - unfold startup; cbn [run]; rewrite Hparse.
    unfold selector_error.
    destruct (as_truthy (name args)), (as_truthy (pid args)); reflexivity.
Qed.

End Startup_block.

(** ** Concrete runs of the further properties *)

Lemma kill_and_start_aborted_witness :
  let tr := trace_of (scripted already_gone)
              (kill_and_start (mkProc 4242) (Some "app start")) 1000 in
  filter is_popen (actions tr) = [] /\
  exists e, In e (raised tr) /\
            result_of (scripted already_gone)
              (kill_and_start (mkProc 4242) (Some "app start")) 1000
            = inr (false, str e).
Proof.
  exact (kill_and_start_aborted (scripted already_gone) (mkProc 4242)
           (Some "app start") 1000 eq_refl).
Defined.

Lemma empty_target_matches_every_command_line_witness :
  exists procs,
    result_of (scripted (listing with_watchdog))
      (find_processes_by_name (Some "")) 1000 = inr procs /\
    In (mkProc 10) procs.
Proof.
  refine (empty_target_matches_every_command_line (scripted (listing with_watchdog))
            1000
            (mkEntry (mkProc 10) (inr (mkInfo (Some "sshd") (Some ["sshd"; "-D"]))))
            (mkInfo (Some "sshd") (Some ["sshd"; "-D"])) "sshd" ["-D"]
            _ _ eq_refl eq_refl).
  - cbn; intros q e [<- | [<- | []]] He; discriminate He.
  - cbn; left; reflexivity.
Defined.


Lemma resolve_by_pid_witness :
  run (scripted calm) (resolve both_selectors) 1000
  = (inr [mkProc 4242], 1000,
     [Ev 1000 (psutil_Process "4242") (inr (mkProc 4242))]).
Proof.
  exact (resolve_by_pid (scripted calm) both_selectors "4242" 1000 eq_refl).
Defined.

Lemma find_processes_by_name_aborts_witness :
  result_of (scripted (listing unreadable)) (find_processes_by_name (Some "nginx")) 1000
  = inl (OtherException "KeyError: 'name'").
Proof.
  exact (find_processes_by_name_aborts (scripted (listing unreadable))
           (Some "nginx") 1000
           [mkEntry (mkProc 1) (inr (mkInfo (Some "nginx") (Some ["nginx"])))]
           [mkEntry (mkProc 3) (inr (mkInfo (Some "nginx") (Some ["nginx"; "-g"])))]
           (mkEntry (mkProc 2) (inl (OtherException "KeyError: 'name'")))
           (OtherException "KeyError: 'name'") [mkProc 1]
           eq_refl eq_refl eq_refl eq_refl).
Defined.

Lemma argument_match_selects_witness :
  exists procs,
    result_of (scripted (listing with_watchdog))
      (find_processes_by_name (Some "nginx")) 1000 = inr procs /\
    In (mkProc 77) procs.
Proof.
  refine (argument_match_selects (scripted (listing with_watchdog)) "nginx" 1000
            (mkEntry (mkProc 77)
               (inr (mkInfo (Some "python3")
                       (Some ["python3"; "process_monitor.py"; "--name"; "nginx"]))))
            (mkInfo (Some "python3")
               (Some ["python3"; "process_monitor.py"; "--name"; "nginx"]))
            ["python3"; "process_monitor.py"; "--name"; "nginx"]
            _ _ eq_refl eq_refl _).
  - cbn; intros q e [<- | [<- | []]] He; discriminate He.
  - cbn; right; left; reflexivity.
  - cbn; right; right; right; left; reflexivity.
Defined.

Lemma main_without_selector_raises_witness :
  result_of (scripted (listing with_watchdog))
    (main true "process_monitor" 1 default_args) 1000
  = Raised (OtherException
              "'in <string>' requires string as left operand, not NoneType").
Proof.
  refine (main_without_selector_raises (scripted (listing with_watchdog)) true
            "process_monitor" 0 default_args 1000 eq_refl eq_refl _ _).
  - cbn; intros q e [<- | [<- | []]] He; discriminate He.
  - exists (mkEntry (mkProc 10) (inr (mkInfo (Some "sshd") (Some ["sshd"; "-D"])))).
    split; [cbn; left; reflexivity|].
    exists "sshd", "sshd", ["-D"]; reflexivity.
Defined.

Lemma vanished_process_is_skipped_witness :
  run (scripted vanishing) (check_procs true app_args [mkProc 4242] (Some 1000)) 1010
  = (inr (Some 1000), 1010,
     [Ev 1010 (memory_info_rss (mkProc 4242))
        (inl (NoSuchProcess "process no longer exists (pid=4242)"))]).
Proof.
  exact (proj1 (vanished_process_is_skipped (scripted vanishing) true app_args
                  (mkProc 4242) [] (Some 1000) 1010)
           (NoSuchProcess "process no longer exists (pid=4242)") 1010
           eq_refl eq_refl).
Defined.

Lemma unexpected_sampling_error_ends_main_witness :
  run (scripted broken_sampling)
    (rest_of_run true "process_monitor" 3 app_args [mkProc 4242] None) 1000
  = (Raised (OtherException "OSError: [Errno 5] Input/output error"), 1000,
     [Ev 1000 (memory_info_rss (mkProc 4242))
        (inl (OtherException "OSError: [Errno 5] Input/output error"))]).
Proof.
  exact (unexpected_sampling_error_ends_main (scripted broken_sampling) true
           "process_monitor" 3 app_args (mkProc 4242) [] None 1000 1000
           (OtherException "OSError: [Errno 5] Input/output error")
           eq_refl eq_refl).
Defined.

Lemma not_found_idle_witness :
  result_of (scripted calm) (not_found true start_only_args (Some 1000)) 1010
  = inr (Some 1000).
Proof.
  exact (proj1 (not_found_idle (scripted calm) true start_only_args (Some 1000) 1010
                  (or_intror eq_refl))).
Defined.

Lemma trip_within_cooldown_calls_no_strategy_witness :
  strategy_events
    (trace_of (scripted calm)
       (handle_trip true app_args (mkProc 4242) 150 10 (Some 1000)) 1010) = [].
Proof.
  refine (trip_within_cooldown_calls_no_strategy (scripted calm) true app_args
            (mkProc 4242) 150 10 1000 1010 _ _).
  - intro H; vm_compute in H; discriminate H.
  - intros now Hin; vm_compute in Hin.
    destruct Hin as [<- | [<- | [<- | [<- | []]]]]; vm_compute; discriminate.
Defined.

Lemma calm_is_tame : tame (scripted calm) app_args.
Proof.
  split; cbn.
  - intros w p e H; discriminate H.
  - intros w p window e H; discriminate H.
  - intros w q e [].
  - intro w; exists tt; reflexivity.
Qed.

Lemma main_keeps_looping_witness :
  result_of (scripted calm) (main true "process_monitor" 3 app_args) 1000
  = StillLooping.
Proof.
  refine (main_keeps_looping (scripted calm) true "process_monitor" app_args 3 1000
            calm_is_tame (or_intror (ex_intro _ "app" eq_refl)) _).
  discriminate.
Defined.

Lemma startup_selector_check_witness :
  run (scripted (called_with default_args))
    (startup (fun args => main_loop true "__main__" 1 args None)) 1000
  = (SystemExit 2 "Must specify --name or --pid", 1000,
     [Ev 1000 parse_args (inr default_args)]).
Proof.
  exact (proj2 (startup_selector_check (scripted (called_with default_args))
                  (fun args => main_loop true "__main__" 1 args None)
                  1000 1000 default_args eq_refl)).
Defined.

(** With both a name and a pid the check of lines 141-142 passes and
    [main] is called. *)
Lemma both_selectors_accepted :
  spec_selector_valid both_selectors = false /\
  selector_error both_selectors = None /\
  result_of (scripted (called_with both_selectors))
    (startup (fun _ => Ret StillLooping)) 1000
  = StillLooping.
Proof. vm_compute; repeat split. Qed.
